(** * rediscache: a facade over a go-redis client

    Shallow embedding of [redis.go] (package [rediscache]).

    The package holds no algorithm of its own: [NewCache] resolves the
    defaults of the caller's [Config], builds a [redis.Client], pings it,
    and every method of [cache] forwards to the method of the same name of
    the client and drops the [redis.Nil] sentinel from the error result.

    What lives outside the package (the go-redis client and the server
    behind it, the logger) is taken as a parameter:
    - [redis.Client] is the method table of [*redis.Client], acting on a
      connection state [Conn] (pool and server); a call is taken to
      return;
    - [Logger] says what [log.Fatal(..).Msgf(..)] does to the process.

    Go data is kept as the code has it: [string] as [string], [int],
    [int64] and [time.Duration] as [Z] (the package compares them with
    zero and passes them on, it does no arithmetic), [float64] as a type
    parameter, variadic arguments as lists, [error] as
    [option redis.error] ([None] is Go's [nil]), [*Config] as an optional
    address into a heap of [Config] values, so that the aliasing between
    the caller's [Config] and [cache.config] is visible.

    Layout: the Go values and the go-redis names; the process and the
    package ([defaults], [NewCache], the methods); the store, modelled
    from the spec, and what it means for a client to follow it; then the
    properties. *)

From stdpp Require Import base option list strings gmap pretty sorting.
From Stdlib Require Import ZArith Lia.

Local Open Scope Z_scope.
Local Open Scope string_scope.

(** ** Go values that cross the facade *)

(** [context.Context]: forwarded untouched to the client. *)
Inductive context : Type :=
  | Background
  | WithCancel (parent : context)
  | WithTimeout (parent : context) (d : Z).

(** [interface{}] arguments ([value], [values...], [members...],
    [redis.Z.Member]): a string, an integer, or a value of another dynamic
    type, named by its type and printed form. *)
Inductive iface : Type :=
  | IString (s : string)
  | IInt (n : Z)
  | IDyn (type_name printed : string).

#[global] Instance iface_eq_dec : EqDecision iface.
Proof. solve_decision. Defined.

(** ** The go-redis names the facade uses *)

Module redis.

(** Go [error] values as the facade can tell them apart: the sentinel
    [redis.Nil], or any other error. *)
Inductive error : Type :=
  | Nil
  | Err (msg : string).

#[global] Instance error_eq_dec : EqDecision error.
Proof. solve_decision. Defined.

(** [redis.Z]: a sorted-set member with its score. *)
Record Z (float64 : Type) : Type := mkZ {
  Score : float64;
  Member : iface
}.
Arguments mkZ {float64} _ _.
Arguments Score {float64} _.
Arguments Member {float64} _.

(** [redis.ZRangeBy]. *)
Record ZRangeBy : Type := mkZRangeBy {
  Min : string;
  Max : string;
  Offset : BinNums.Z;
  Count : BinNums.Z
}.

(** What the [OnConnect] callback of [NewCache] does when the client
    calls it: one Info event of the logger, and a [nil] error. *)
Record OnConnectHook : Type := mkOnConnect {
  info_tag : string;
  info_msg : string;
  hook_err : option error
}.

(** [redis.Options], the fields [NewCache] fills in. *)
Record Options : Type := mkOptions {
  Addr : string;
  Password : string;
  DB : BinNums.Z;
  OnConnect : OnConnectHook;
  MaxRetries : BinNums.Z;
  PoolSize : BinNums.Z
}.

Section Client.
Context (float64 Conn : Type).

(** [cmd.Result()]: the reply, the error, and the connection state the
    call leaves behind. *)
Definition Result (A : Type) : Type := Conn → (A * option error) * Conn.

(** The methods of [*redis.Client] that [cache] calls. *)
Record Client : Type := mkClient {
  Ping : context → Result string;
  Get : context → string → Result string;
  Set_ : context → string → iface → BinNums.Z → Result string;
  Del : context → list string → Result BinNums.Z;
  ZAdd : context → string → list (Z float64) → Result BinNums.Z;
  ZCard : context → string → Result BinNums.Z;
  ZPopMin : context → string → list BinNums.Z → Result (list (Z float64));
  ZScore : context → string → string → Result float64;
  ZRem : context → string → string → Result BinNums.Z;
  ZRange : context → string → BinNums.Z → BinNums.Z → Result (list string);
  ZRangeByScore : context → string → ZRangeBy → Result (list string);
  ZRangeByScoreWithScores :
    context → string → ZRangeBy → Result (list (Z float64));
  RPush : context → string → list iface → Result BinNums.Z;
  LLen : context → string → Result BinNums.Z;
  LRem : context → string → BinNums.Z → iface → Result BinNums.Z;
  LSet : context → string → BinNums.Z → iface → Result string;
  LPop : context → string → Result string;
  LRange : context → string → BinNums.Z → BinNums.Z → Result (list string);
  LMove : context → string → string → string → string → Result string;
  SMembers : context → string → Result (list string);
  SAdd : context → string → list iface → Result BinNums.Z;
  Incr : context → string → Result BinNums.Z;
  Expire : context → string → BinNums.Z → Result bool;
  Close : Conn → option error * Conn
}.
End Client.

Arguments Ping {float64 Conn} _ _ _.
Arguments Get {float64 Conn} _ _ _ _.
Arguments Set_ {float64 Conn} _ _ _ _ _ _.
Arguments Del {float64 Conn} _ _ _ _.
Arguments ZAdd {float64 Conn} _ _ _ _ _.
Arguments ZCard {float64 Conn} _ _ _ _.
Arguments ZPopMin {float64 Conn} _ _ _ _ _.
Arguments ZScore {float64 Conn} _ _ _ _ _.
Arguments ZRem {float64 Conn} _ _ _ _ _.
Arguments ZRange {float64 Conn} _ _ _ _ _ _.
Arguments ZRangeByScore {float64 Conn} _ _ _ _ _.
Arguments ZRangeByScoreWithScores {float64 Conn} _ _ _ _ _.
Arguments RPush {float64 Conn} _ _ _ _ _.
Arguments LLen {float64 Conn} _ _ _ _.
Arguments LRem {float64 Conn} _ _ _ _ _ _.
Arguments LSet {float64 Conn} _ _ _ _ _ _.
Arguments LPop {float64 Conn} _ _ _ _.
Arguments LRange {float64 Conn} _ _ _ _ _ _.
Arguments LMove {float64 Conn} _ _ _ _ _ _ _.
Arguments SMembers {float64 Conn} _ _ _ _.
Arguments SAdd {float64 Conn} _ _ _ _ _.
Arguments Incr {float64 Conn} _ _ _ _.
Arguments Expire {float64 Conn} _ _ _ _ _.
Arguments Close {float64 Conn} _ _.

End redis.

(** Go's [error] interface value: [None] is [nil]. *)
Abbreviation goerr := (option redis.error).

(** ** The logger *)

(** What [log.Fatal(tag).Msgf(..)] does once the message is written. The
    logger is another package; its behaviour is a parameter. *)
Inductive after_fatal : Type :=
  | ExitProcess
  | PanicProcess
  | ReturnToCaller.

Record Logger : Type := mkLogger {
  on_fatal : after_fatal
}.

(** ** Config *)

Record Config : Type := mkConfig {
  Host : string;
  Port : Z;
  Password : string;
  DB : Z;
  MaxRetries : Z;
  PoolSize : Z
}.

#[global] Instance Config_eq_dec : EqDecision Config.
Proof. solve_decision. Defined.

Definition set_Host (v : string) (k : Config) : Config :=
  mkConfig v (Port k) (Password k) (DB k) (MaxRetries k) (PoolSize k).
Definition set_Port (v : Z) (k : Config) : Config :=
  mkConfig (Host k) v (Password k) (DB k) (MaxRetries k) (PoolSize k).
Definition set_DB (v : Z) (k : Config) : Config :=
  mkConfig (Host k) (Port k) (Password k) v (MaxRetries k) (PoolSize k).
Definition set_MaxRetries (v : Z) (k : Config) : Config :=
  mkConfig (Host k) (Port k) (Password k) (DB k) v (PoolSize k).
Definition set_PoolSize (v : Z) (k : Config) : Config :=
  mkConfig (Host k) (Port k) (Password k) (DB k) (MaxRetries k) v.

(** Addresses of [Config] values; a [*Config] is [None] for [nil]. *)
Abbreviation loc := positive.
Abbreviation ptr := (option positive).

(** ** The process: heap of [Config] values, connection, logged events *)

Section Facade.
Context {float64 Conn : Type}.

(** [redis.NewClient]: builds the client from the options; it does not
    touch the connection (the first command does). *)
Context (NewClient : redis.Options → redis.Client float64 Conn).

Record World : Type := mkWorld {
  heap : gmap positive Config;
  conn : Conn;
  logged : list (string * string * string)
}.

Definition with_heap (h : gmap positive Config) (w : World) : World :=
  mkWorld h (conn w) (logged w).
Definition with_conn (s : Conn) (w : World) : World :=
  mkWorld (heap w) s (logged w).
Definition with_logged (e : string * string * string) (w : World) : World :=
  mkWorld (heap w) (conn w) (logged w ++ [e]).

(** The world after [*l = k]. *)
Definition put (l : positive) (k : Config) (w : World) : World :=
  with_heap (<[l := k]> (heap w)) w.

(** How a call ends: it returns, the goroutine panics, or the process
    exits. *)
Inductive outcome (A : Type) : Type :=
  | Returns (a : A) (w : World)
  | Panics (msg : string)
  | Exits (code : Z) (w : World).
Arguments Returns {A} _ _.
Arguments Panics {A} _.
Arguments Exits {A} _ _.

Definition Proc (A : Type) : Type := World → outcome A.

#[global] Instance Proc_ret : MRet Proc := λ A a w, Returns a w.
#[global] Instance Proc_bind : MBind Proc := λ A B f m w,
  match m w with
  | Returns a w' => f a w'
  | Panics msg => Panics msg
  | Exits code w' => Exits code w'
  end.

Definition nil_dereference : string :=
  "runtime error: invalid memory address or nil pointer dereference".

(** [*p] for reading, and [p.f = v] as an update of the pointee. *)
Definition load (p : ptr) : Proc Config := λ w,
  match p with
  | None => Panics nil_dereference
  | Some l =>
      match heap w !! l with
      | Some k => Returns k w
      | None => Panics nil_dereference
      end
  end.

Definition store (p : ptr) (f : Config → Config) : Proc unit := λ w,
  match p with
  | None => Panics nil_dereference
  | Some l =>
      match heap w !! l with
      | Some k => Returns () (with_heap (<[l := f k]> (heap w)) w)
      | None => Panics nil_dereference
      end
  end.

(** A method call on [c.client]: a nil client panics, otherwise the call
    runs on the connection. The call is one that returns; what it does to
    the process is what it does to the connection. The info event that the
    [OnConnect] closure writes when the client opens a connection is
    written by the client's call of the closure and is not traced here:
    [logged] holds what the statements of the package write themselves,
    which is the fatal event of [NewCache]. *)
Definition call {A : Type} (cl : option (redis.Client float64 Conn))
    (f : redis.Client float64 Conn → redis.Result Conn A) : Proc (A * goerr) :=
  λ w,
  match cl with
  | None => Panics nil_dereference
  | Some cl => let '(r, s) := f cl (conn w) in Returns r (with_conn s w)
  end.

(** [log.Fatal(tag).Msgf(msg)]. *)
Definition Fatal (log : Logger) (tag msg : string) : Proc unit := λ w,
  let w' := with_logged ("fatal", tag, msg) w in
  match on_fatal log with
  | ExitProcess => Exits 1 w'
  | PanicProcess => Panics nil_dereference
  | ReturnToCaller => Returns () w'
  end.

(** ** The cache *)

Record cache : Type := mkCache {
  client : option (redis.Client float64 Conn);
  log : Logger;
  config : ptr
}.

Definition defaults (c : cache) : Proc unit :=
  k ← load (config c);
  (if decide (Host k = "") then store (config c) (set_Host "127.0.0.1")
   else mret ());;
  k ← load (config c);
  (if decide (Port k = 0) then store (config c) (set_Port 6379)
   else mret ());;
  k ← load (config c);
  (if decide (DB k = 0) then store (config c) (set_DB 0)
   else mret ());;
  k ← load (config c);
  (if decide (MaxRetries k = 0) then store (config c) (set_MaxRetries 3)
   else mret ());;
  k ← load (config c);
  (if decide (PoolSize k = 0) then store (config c) (set_PoolSize 10)
   else mret ()).

(** [fmt.Sprintf("%s:%d", host, port)]. *)
Definition host_port (host : string) (port : Z) : string :=
  host ++ ":" ++ pretty port.

Definition show_error (e : redis.error) : string :=
  match e with
  | redis.Nil => "redis: nil"
  | redis.Err msg => msg
  end.

(** The [&redis.Options{...}] literal of [NewCache], read off the
    configuration [c.config] points to. *)
Definition options (k : Config) : redis.Options := {|
  redis.Addr := host_port (Host k) (Port k);
  redis.Password := Password k;
  redis.DB := DB k;
  redis.OnConnect :=
    redis.mkOnConnect "redis"
      ("connected to " ++ host_port (Host k) (Port k)) None;
  redis.MaxRetries := MaxRetries k;
  redis.PoolSize := PoolSize k
|}.

Definition ping_failed (e : redis.error) : string :=
  "Could not ping redis " ++ show_error e.

Definition NewCache (conf : ptr) (log : Logger) : Proc (cache * goerr) :=
  let c := mkCache None log conf in
  defaults c;;
  k ← load (config c);
  let client := NewClient (options k) in
  '(_, err) ← call (Some client) (λ cl, redis.Ping cl Background);
  match err with
  | Some e => Fatal log "redis" (ping_failed e)
  | None => mret ()
  end;;
  let c := mkCache (Some client) log conf in
  mret (c, None).

Definition GetClient (c : cache) : option (redis.Client float64 Conn) :=
  client c.

Definition Close (c : cache) : Proc goerr := λ w,
  match client c with
  | None => Panics nil_dereference
  | Some cl => let '(e, s) := redis.Close cl (conn w) in Returns e (with_conn s w)
  end.

(** ** The methods of [cache]

    Each one calls the client and returns the reply; the error is returned
    only when it is neither [nil] nor [redis.Nil]. *)

Definition Get (c : cache) (ctx : context) (key : string) :
    Proc (string * goerr) :=
  '(response, err) ← call (client c) (λ cl, redis.Get cl ctx key);
  if decide (err ≠ None ∧ err ≠ Some redis.Nil) then mret (response, err)
  else mret (response, None).

Definition Set_ (c : cache) (ctx : context) (key : string) (value : iface) (expiration : Z) :
    Proc (string * goerr) :=
  '(response, err) ← call (client c) (λ cl, redis.Set_ cl ctx key value expiration);
  if decide (err ≠ None ∧ err ≠ Some redis.Nil) then mret (response, err)
  else mret (response, None).

Definition Del (c : cache) (ctx : context) (keys : list string) :
    Proc (Z * goerr) :=
  '(response, err) ← call (client c) (λ cl, redis.Del cl ctx keys);
  if decide (err ≠ None ∧ err ≠ Some redis.Nil) then mret (response, err)
  else mret (response, None).

Definition ZAdd (c : cache) (ctx : context) (key : string) (members : list (redis.Z float64)) :
    Proc (Z * goerr) :=
  '(response, err) ← call (client c) (λ cl, redis.ZAdd cl ctx key members);
  if decide (err ≠ None ∧ err ≠ Some redis.Nil) then mret (response, err)
  else mret (response, None).

Definition ZCard (c : cache) (ctx : context) (key : string) :
    Proc (Z * goerr) :=
  '(response, err) ← call (client c) (λ cl, redis.ZCard cl ctx key);
  if decide (err ≠ None ∧ err ≠ Some redis.Nil) then mret (response, err)
  else mret (response, None).

Definition ZPopMin (c : cache) (ctx : context) (key : string) (count : list Z) :
    Proc (list (redis.Z float64) * goerr) :=
  '(response, err) ← call (client c) (λ cl, redis.ZPopMin cl ctx key count);
  if decide (err ≠ None ∧ err ≠ Some redis.Nil) then mret (response, err)
  else mret (response, None).

Definition ZScore (c : cache) (ctx : context) (key : string) (member : string) :
    Proc (float64 * goerr) :=
  '(response, err) ← call (client c) (λ cl, redis.ZScore cl ctx key member);
  if decide (err ≠ None ∧ err ≠ Some redis.Nil) then mret (response, err)
  else mret (response, None).

Definition ZRem (c : cache) (ctx : context) (key : string) (member : string) :
    Proc (Z * goerr) :=
  '(response, err) ← call (client c) (λ cl, redis.ZRem cl ctx key member);
  if decide (err ≠ None ∧ err ≠ Some redis.Nil) then mret (response, err)
  else mret (response, None).

Definition ZRange (c : cache) (ctx : context) (key : string) (start : Z) (stop : Z) :
    Proc (list string * goerr) :=
  '(response, err) ← call (client c) (λ cl, redis.ZRange cl ctx key start stop);
  if decide (err ≠ None ∧ err ≠ Some redis.Nil) then mret (response, err)
  else mret (response, None).

Definition ZRangeByScoreWithScores (c : cache) (ctx : context) (key : string) (min : string) (max : string) (offset : Z) (count : Z) :
    Proc (list (redis.Z float64) * goerr) :=
  '(response, err) ← call (client c) (λ cl, redis.ZRangeByScoreWithScores cl ctx key
      (redis.mkZRangeBy min max offset count));
  if decide (err ≠ None ∧ err ≠ Some redis.Nil) then mret (response, err)
  else mret (response, None).

Definition ZRangeByScore (c : cache) (ctx : context) (key : string) (min : string) (max : string) (offset : Z) (count : Z) :
    Proc (list string * goerr) :=
  '(response, err) ← call (client c) (λ cl, redis.ZRangeByScore cl ctx key
      (redis.mkZRangeBy min max offset count));
  if decide (err ≠ None ∧ err ≠ Some redis.Nil) then mret (response, err)
  else mret (response, None).

Definition RPush (c : cache) (ctx : context) (key : string) (values : list iface) :
    Proc (Z * goerr) :=
  '(response, err) ← call (client c) (λ cl, redis.RPush cl ctx key values);
  if decide (err ≠ None ∧ err ≠ Some redis.Nil) then mret (response, err)
  else mret (response, None).

Definition LLen (c : cache) (ctx : context) (key : string) :
    Proc (Z * goerr) :=
  '(response, err) ← call (client c) (λ cl, redis.LLen cl ctx key);
  if decide (err ≠ None ∧ err ≠ Some redis.Nil) then mret (response, err)
  else mret (response, None).

Definition LRem (c : cache) (ctx : context) (key : string) (count : Z) (value : iface) :
    Proc (Z * goerr) :=
  '(response, err) ← call (client c) (λ cl, redis.LRem cl ctx key count value);
  if decide (err ≠ None ∧ err ≠ Some redis.Nil) then mret (response, err)
  else mret (response, None).

Definition LSet (c : cache) (ctx : context) (key : string) (index : Z) (value : iface) :
    Proc (string * goerr) :=
  '(response, err) ← call (client c) (λ cl, redis.LSet cl ctx key index value);
  if decide (err ≠ None ∧ err ≠ Some redis.Nil) then mret (response, err)
  else mret (response, None).

Definition LPop (c : cache) (ctx : context) (key : string) :
    Proc (string * goerr) :=
  '(response, err) ← call (client c) (λ cl, redis.LPop cl ctx key);
  if decide (err ≠ None ∧ err ≠ Some redis.Nil) then mret (response, err)
  else mret (response, None).

Definition LRange (c : cache) (ctx : context) (key : string) (start : Z) (stop : Z) :
    Proc (list string * goerr) :=
  '(response, err) ← call (client c) (λ cl, redis.LRange cl ctx key start stop);
  if decide (err ≠ None ∧ err ≠ Some redis.Nil) then mret (response, err)
  else mret (response, None).

Definition LMove (c : cache) (ctx : context) (source : string) (destination : string) (srcpos : string) (destpos : string) :
    Proc (string * goerr) :=
  '(response, err) ← call (client c) (λ cl, redis.LMove cl ctx source destination srcpos destpos);
  if decide (err ≠ None ∧ err ≠ Some redis.Nil) then mret (response, err)
  else mret (response, None).

Definition SMembers (c : cache) (ctx : context) (key : string) :
    Proc (list string * goerr) :=
  '(response, err) ← call (client c) (λ cl, redis.SMembers cl ctx key);
  if decide (err ≠ None ∧ err ≠ Some redis.Nil) then mret (response, err)
  else mret (response, None).

Definition SAdd (c : cache) (ctx : context) (key : string) (members : list iface) :
    Proc (Z * goerr) :=
  '(response, err) ← call (client c) (λ cl, redis.SAdd cl ctx key members);
  if decide (err ≠ None ∧ err ≠ Some redis.Nil) then mret (response, err)
  else mret (response, None).

Definition Ping (c : cache) (ctx : context) :
    Proc (string * goerr) :=
  '(response, err) ← call (client c) (λ cl, redis.Ping cl ctx);
  if decide (err ≠ None ∧ err ≠ Some redis.Nil) then mret (response, err)
  else mret (response, None).

Definition Incr (c : cache) (ctx : context) (key : string) :
    Proc (Z * goerr) :=
  '(response, err) ← call (client c) (λ cl, redis.Incr cl ctx key);
  if decide (err ≠ None ∧ err ≠ Some redis.Nil) then mret (response, err)
  else mret (response, None).

Definition Expire (c : cache) (ctx : context) (key : string) (expiration : Z) :
    Proc (bool * goerr) :=
  '(response, err) ← call (client c) (λ cl, redis.Expire cl ctx key expiration);
  if decide (err ≠ None ∧ err ≠ Some redis.Nil) then mret (response, err)
  else mret (response, None).

(** A caller that pops the minimum [n] times, with no count, and reads
    the whole range of the key after each pop; it collects what the two
    calls returned. *)
Fixpoint pop_and_range (c : cache) (ctx : context) (key : string) (n : nat) :
    Proc (list ((list (redis.Z float64) * goerr) * (list string * goerr))) :=
  match n with
  | O => mret []
  | S n' =>
      popped ← ZPopMin c ctx key [];
      rest ← ZRange c ctx key 0 (-1);
      more ← pop_and_range c ctx key n';
      mret ((popped, rest) :: more)
  end.

(** ** The [Cache] interface as data

    One constructor per method that returns a reply and an error
    ([GetClient] and [Close] are apart); [reply] is the sum of the result
    types. *)

Inductive reply : Type :=
  | RString (s : string)
  | RInt (n : Z)
  | RFloat (f : float64)
  | RBool (b : bool)
  | RStrings (l : list string)
  | RZs (l : list (redis.Z float64)).

Inductive op : Type :=
  | OpGet (ctx : context) (key : string)
  | OpSet (ctx : context) (key : string) (value : iface) (expiration : Z)
  | OpDel (ctx : context) (keys : list string)
  | OpZAdd (ctx : context) (key : string) (members : list (redis.Z float64))
  | OpZCard (ctx : context) (key : string)
  | OpZPopMin (ctx : context) (key : string) (count : list Z)
  | OpZScore (ctx : context) (key : string) (member : string)
  | OpZRem (ctx : context) (key : string) (member : string)
  | OpZRange (ctx : context) (key : string) (start : Z) (stop : Z)
  | OpZRangeByScoreWithScores (ctx : context) (key : string) (min : string) (max : string) (offset : Z) (count : Z)
  | OpZRangeByScore (ctx : context) (key : string) (min : string) (max : string) (offset : Z) (count : Z)
  | OpRPush (ctx : context) (key : string) (values : list iface)
  | OpLLen (ctx : context) (key : string)
  | OpLRem (ctx : context) (key : string) (count : Z) (value : iface)
  | OpLSet (ctx : context) (key : string) (index : Z) (value : iface)
  | OpLPop (ctx : context) (key : string)
  | OpLRange (ctx : context) (key : string) (start : Z) (stop : Z)
  | OpLMove (ctx : context) (source : string) (destination : string) (srcpos : string) (destpos : string)
  | OpSMembers (ctx : context) (key : string)
  | OpSAdd (ctx : context) (key : string) (members : list iface)
  | OpPing (ctx : context)
  | OpIncr (ctx : context) (key : string)
  | OpExpire (ctx : context) (key : string) (expiration : Z).

Definition tag {A : Type} (f : A → reply) (r : A * goerr) : reply * goerr :=
  (f r.1, r.2).

(** The client call behind an operation. *)
Definition store_call (cl : redis.Client float64 Conn) (o : op) :
    redis.Result Conn reply :=
  λ s,
  match o with
  | OpGet ctx key =>
      let '(r, s') := redis.Get cl ctx key s in (tag RString r, s')
  | OpSet ctx key value expiration =>
      let '(r, s') := redis.Set_ cl ctx key value expiration s in (tag RString r, s')
  | OpDel ctx keys =>
      let '(r, s') := redis.Del cl ctx keys s in (tag RInt r, s')
  | OpZAdd ctx key members =>
      let '(r, s') := redis.ZAdd cl ctx key members s in (tag RInt r, s')
  | OpZCard ctx key =>
      let '(r, s') := redis.ZCard cl ctx key s in (tag RInt r, s')
  | OpZPopMin ctx key count =>
      let '(r, s') := redis.ZPopMin cl ctx key count s in (tag RZs r, s')
  | OpZScore ctx key member =>
      let '(r, s') := redis.ZScore cl ctx key member s in (tag RFloat r, s')
  | OpZRem ctx key member =>
      let '(r, s') := redis.ZRem cl ctx key member s in (tag RInt r, s')
  | OpZRange ctx key start stop =>
      let '(r, s') := redis.ZRange cl ctx key start stop s in (tag RStrings r, s')
  | OpZRangeByScoreWithScores ctx key min max offset count =>
      let '(r, s') := redis.ZRangeByScoreWithScores cl ctx key (redis.mkZRangeBy min max offset count) s in (tag RZs r, s')
  | OpZRangeByScore ctx key min max offset count =>
      let '(r, s') := redis.ZRangeByScore cl ctx key (redis.mkZRangeBy min max offset count) s in (tag RStrings r, s')
  | OpRPush ctx key values =>
      let '(r, s') := redis.RPush cl ctx key values s in (tag RInt r, s')
  | OpLLen ctx key =>
      let '(r, s') := redis.LLen cl ctx key s in (tag RInt r, s')
  | OpLRem ctx key count value =>
      let '(r, s') := redis.LRem cl ctx key count value s in (tag RInt r, s')
  | OpLSet ctx key index value =>
      let '(r, s') := redis.LSet cl ctx key index value s in (tag RString r, s')
  | OpLPop ctx key =>
      let '(r, s') := redis.LPop cl ctx key s in (tag RString r, s')
  | OpLRange ctx key start stop =>
      let '(r, s') := redis.LRange cl ctx key start stop s in (tag RStrings r, s')
  | OpLMove ctx source destination srcpos destpos =>
      let '(r, s') := redis.LMove cl ctx source destination srcpos destpos s in (tag RString r, s')
  | OpSMembers ctx key =>
      let '(r, s') := redis.SMembers cl ctx key s in (tag RStrings r, s')
  | OpSAdd ctx key members =>
      let '(r, s') := redis.SAdd cl ctx key members s in (tag RInt r, s')
  | OpPing ctx =>
      let '(r, s') := redis.Ping cl ctx s in (tag RString r, s')
  | OpIncr ctx key =>
      let '(r, s') := redis.Incr cl ctx key s in (tag RInt r, s')
  | OpExpire ctx key expiration =>
      let '(r, s') := redis.Expire cl ctx key expiration s in (tag RBool r, s')
  end.

(** The method of [cache] behind an operation. *)
Definition run (c : cache) (o : op) : Proc (reply * goerr) :=
  match o with
  | OpGet ctx key => r ← Get c ctx key; mret (tag RString r)
  | OpSet ctx key value expiration => r ← Set_ c ctx key value expiration; mret (tag RString r)
  | OpDel ctx keys => r ← Del c ctx keys; mret (tag RInt r)
  | OpZAdd ctx key members => r ← ZAdd c ctx key members; mret (tag RInt r)
  | OpZCard ctx key => r ← ZCard c ctx key; mret (tag RInt r)
  | OpZPopMin ctx key count => r ← ZPopMin c ctx key count; mret (tag RZs r)
  | OpZScore ctx key member => r ← ZScore c ctx key member; mret (tag RFloat r)
  | OpZRem ctx key member => r ← ZRem c ctx key member; mret (tag RInt r)
  | OpZRange ctx key start stop => r ← ZRange c ctx key start stop; mret (tag RStrings r)
  | OpZRangeByScoreWithScores ctx key min max offset count => r ← ZRangeByScoreWithScores c ctx key min max offset count; mret (tag RZs r)
  | OpZRangeByScore ctx key min max offset count => r ← ZRangeByScore c ctx key min max offset count; mret (tag RStrings r)
  | OpRPush ctx key values => r ← RPush c ctx key values; mret (tag RInt r)
  | OpLLen ctx key => r ← LLen c ctx key; mret (tag RInt r)
  | OpLRem ctx key count value => r ← LRem c ctx key count value; mret (tag RInt r)
  | OpLSet ctx key index value => r ← LSet c ctx key index value; mret (tag RString r)
  | OpLPop ctx key => r ← LPop c ctx key; mret (tag RString r)
  | OpLRange ctx key start stop => r ← LRange c ctx key start stop; mret (tag RStrings r)
  | OpLMove ctx source destination srcpos destpos => r ← LMove c ctx source destination srcpos destpos; mret (tag RString r)
  | OpSMembers ctx key => r ← SMembers c ctx key; mret (tag RStrings r)
  | OpSAdd ctx key members => r ← SAdd c ctx key members; mret (tag RInt r)
  | OpPing ctx => r ← Ping c ctx; mret (tag RString r)
  | OpIncr ctx key => r ← Incr c ctx key; mret (tag RInt r)
  | OpExpire ctx key expiration => r ← Expire c ctx key expiration; mret (tag RBool r)
  end.

End Facade.

Arguments World Conn : clear implicits.
Arguments outcome Conn A : clear implicits.
Arguments Proc Conn A : clear implicits.
Arguments cache float64 Conn : clear implicits.
Arguments reply float64 : clear implicits.
Arguments op float64 : clear implicits.
Arguments Returns {Conn A} _ _.
Arguments Panics {Conn A} _.
Arguments Exits {Conn A} _ _.

(** ** Callers of the package *)

Section Callers.
Context {float64 Conn : Type}.
Context (NewClient : redis.Options → redis.Client float64 Conn).

(** A caller that issues one operation after the other on the same
    cache and collects what each returned. *)
Fixpoint run_all (c : cache float64 Conn) (ops : list (op float64)) :
    Proc Conn (list (reply float64 * goerr)) :=
  match ops with
  | [] => mret []
  | o :: ops' =>
      r ← run c o;
      rs ← run_all c ops';
      mret (r :: rs)
  end.

(** The same operations issued on the client itself. *)
Fixpoint store_all (cl : redis.Client float64 Conn) (ops : list (op float64))
    (s : Conn) : list (reply float64 * goerr) * Conn :=
  match ops with
  | [] => ([], s)
  | o :: ops' =>
      let '(r, s1) := store_call cl o s in
      let '(rs, s2) := store_all cl ops' s1 in
      (r :: rs, s2)
  end.

(** [conf := Config{...}] followed by [&conf]: the value gets an address
    of its own. *)
Definition alloc (k : Config) : Proc Conn ptr := λ w,
  let l := fresh (dom (heap w)) in
  Returns (Some l) (put l k w).

(** [utils.Test().Nil(t, err)]: the assertion holds when [err] is nil. *)
Definition assert_nil (err : goerr) : bool := bool_decide (err = None).

(** [TestRedis], with the logger that [logger.NewLogger(0, true)] built;
    the result lists how the two assertions came out. *)
Definition TestRedis (log : Logger) : Proc Conn (list bool) :=
  conf ← alloc {|
    Host := "127.0.0.1";
    Port := 9876;
    Password := "596a96cc7bf9108cd896f33c44aedc8a";
    DB := 0;
    MaxRetries := 0;
    PoolSize := 0
  |};
  '(c, err) ← NewCache NewClient conf log;
  let first := assert_nil err in
  let _ := GetClient c in
  err ← Close c;
  let second := assert_nil err in
  mret [first; second].

End Callers.

(** ** The store

    Modelled from the spec: the store behind the client ("the external
    key-value/data-structure server this facade connects to (sorted sets,
    lists, sets, strings, counters)", with its "key/member absent"
    sentinel); no file of the package implements it. The keyspace below
    gives the string, list and sorted-set commands as the server answers
    them, without transport faults and without a clock.

    Nothing about the package is proved from this model alone: the
    statements that need the store assume a client that follows it on the
    commands and argument shapes they name ([strings], [zsets], [lists]
    below), and the client made from the model itself shows that such
    clients exist. *)

Module model.
Section Keyspace.
Context {float64 : Type} (lt : relation float64) `{!RelDecision lt}.
Context (zero : float64).

(** Modelled from the spec: what a key of the store holds. *)
Inductive entry : Type :=
  | EString (s : string)
  | EList (l : list string)
  | EZSet (zs : list (float64 * string)).

Definition wrong_type : redis.error :=
  redis.Err "WRONGTYPE Operation against a key holding the wrong kind of value".
Definition cannot_marshal : redis.error :=
  redis.Err "redis: can't marshal value (implement encoding.BinaryMarshaler)".
Definition syntax_error : redis.error := redis.Err "ERR syntax error".
Definition wrong_arity : redis.error :=
  redis.Err "ERR wrong number of arguments".
Definition out_of_range : redis.error :=
  redis.Err "ERR value is out of range, must be positive".
Definition unknown_command : redis.error := redis.Err "ERR unknown command".
Definition too_many_arguments : redis.error := redis.Err "too many arguments".

(** Elements [start..stop] of a list, both ends included, negative
    indexes counting from the end. *)
Definition slice {A : Type} (l : list A) (start stop : Z) : list A :=
  let n := Z.of_nat (length l) in
  let a := if (start <? 0)%Z then Z.max 0 (n + start) else start in
  let b := if (stop <? 0)%Z then n + stop else Z.min stop (n - 1) in
  if (b <? a)%Z then [] else take (Z.to_nat (b - a + 1)) (drop (Z.to_nat a) l).

(** *** Typed access to a key: an absent key reads as empty, an emptied
    list or sorted set is deleted. *)
Definition list_at (key : string) (ks : gmap string entry) :
    option (list string) :=
  match ks !! key with
  | None => Some []
  | Some (EList l) => Some l
  | Some _ => None
  end.

Definition zset_at (key : string) (ks : gmap string entry) :
    option (list (float64 * string)) :=
  match ks !! key with
  | None => Some []
  | Some (EZSet zs) => Some zs
  | Some _ => None
  end.

Definition put_list (key : string) (l : list string)
    (ks : gmap string entry) : gmap string entry :=
  match l with
  | [] => delete key ks
  | _ => <[key := EList l]> ks
  end.

Definition put_zset (key : string) (zs : list (float64 * string))
    (ks : gmap string entry) : gmap string entry :=
  match zs with
  | [] => delete key ks
  | _ => <[key := EZSet zs]> ks
  end.

(** *** Strings *)

Definition ping (ks : gmap string entry) :
    (string * goerr) * gmap string entry :=
  (("PONG", None), ks).

(** Modelled from the spec: SET of a string, without expiration. *)
Definition set (key : string) (s : string) (ks : gmap string entry) :
    (string * goerr) * gmap string entry :=
  (("OK", None), <[key := EString s]> ks).

(** Modelled from the spec: GET; an absent key is the sentinel. *)
Definition get (key : string) (ks : gmap string entry) :
    (string * goerr) * gmap string entry :=
  match ks !! key with
  | None => (("", Some redis.Nil), ks)
  | Some (EString s) => ((s, None), ks)
  | Some _ => (("", Some wrong_type), ks)
  end.

Definition del (keys : list string) (ks : gmap string entry) :
    (Z * goerr) * gmap string entry :=
  let ks' := foldr delete ks keys in
  ((Z.of_nat (size ks) - Z.of_nat (size ks'), None), ks').

(** *** Sorted sets: kept in ascending order of score, members of equal
    score in the order of their bytes. *)

(** Two scores of which one is smaller than the other. *)
Definition apart (s t : float64) : Prop := lt s t ∨ lt t s.

(** Modelled from the spec: "score being a valid numeric value". A score
    is numeric when it compares with some score; NaN compares with
    none. *)
Definition numeric (s : float64) : Prop := ∃ t, apart s t.

(** Pairwise distinct scores. *)
Fixpoint distinct (ss : list float64) : Prop :=
  match ss with
  | [] => True
  | s :: ss' => Forall (apart s) ss' ∧ distinct ss'
  end.

Definition before (x y : float64 * string) : bool :=
  if decide (lt x.1 y.1) then true
  else if decide (lt y.1 x.1) then false
  else String.ltb x.2 y.2.

Fixpoint zinsert (x : float64 * string) (zs : list (float64 * string)) :
    list (float64 * string) :=
  match zs with
  | [] => [x]
  | y :: zs' => if before x y then x :: y :: zs' else y :: zinsert x zs'
  end.

Definition zremove (m : string) (zs : list (float64 * string)) :
    list (float64 * string) :=
  filter (λ y, y.2 ≠ m) zs.

(** The state of a sorted set: ascending in score, no member twice. *)
Definition well_kept (zs : list (float64 * string)) : Prop :=
  StronglySorted (λ x y, lt x.1 y.1) zs ∧ NoDup zs.*2.

(** What a caller sees who pops the members of [zs] one by one and reads
    the whole range after each pop. *)
Fixpoint pops_of (zs : list (float64 * string)) :
    list ((list (redis.Z float64) * goerr) * (list string * goerr)) :=
  match zs with
  | [] => []
  | z :: rest =>
      (([redis.mkZ z.1 (IString z.2)], None), (rest.*2, None)) :: pops_of rest
  end.

Definition zadd1 (zs : list (float64 * string)) (x : float64 * string) :
    list (float64 * string) :=
  zinsert x (zremove x.2 zs).

(** Modelled from the spec: ZADD of scores with string members; the reply
    counts the members that are new. *)
Definition zadd (key : string) (xs : list (float64 * string))
    (ks : gmap string entry) : (Z * goerr) * gmap string entry :=
  match xs with
  | [] => ((0, Some wrong_arity), ks)
  | _ =>
      match zset_at key ks with
      | None => ((0, Some wrong_type), ks)
      | Some zs =>
          let zs' := foldl zadd1 zs xs in
          ((Z.of_nat (length zs') - Z.of_nat (length zs), None),
           <[key := EZSet zs']> ks)
      end
  end.

Definition zcard (key : string) (ks : gmap string entry) :
    (Z * goerr) * gmap string entry :=
  match zset_at key ks with
  | None => ((0, Some wrong_type), ks)
  | Some zs => ((Z.of_nat (length zs), None), ks)
  end.

(** Modelled from the spec: ZPOPMIN of up to [n] members: the members of
    lowest score leave the set and are the reply, each with its score. *)
Definition zpop (key : string) (n : nat) (ks : gmap string entry) :
    (list (redis.Z float64) * goerr) * gmap string entry :=
  match zset_at key ks with
  | None => (([], Some wrong_type), ks)
  | Some [] => (([], None), ks)
  | Some zs =>
      (((λ x, redis.mkZ x.1 (IString x.2)) <$> take n zs, None),
       put_zset key (drop n zs) ks)
  end.

Definition zscore (key member : string) (ks : gmap string entry) :
    (float64 * goerr) * gmap string entry :=
  match zset_at key ks with
  | None => ((zero, Some wrong_type), ks)
  | Some zs =>
      match list_find (λ y, y.2 = member) zs with
      | Some (_, y) => ((y.1, None), ks)
      | None => ((zero, Some redis.Nil), ks)
      end
  end.

Definition zrem (key member : string) (ks : gmap string entry) :
    (Z * goerr) * gmap string entry :=
  match ks !! key with
  | None => ((0, None), ks)
  | Some (EZSet zs) =>
      let zs' := zremove member zs in
      ((Z.of_nat (length zs) - Z.of_nat (length zs'), None),
       put_zset key zs' ks)
  | Some _ => ((0, Some wrong_type), ks)
  end.

(** Modelled from the spec: ZRANGE by rank. *)
Definition zrange (key : string) (start stop : Z)
    (ks : gmap string entry) : (list string * goerr) * gmap string entry :=
  match zset_at key ks with
  | None => (([], Some wrong_type), ks)
  | Some zs => ((slice (zs.*2) start stop, None), ks)
  end.

(** *** Lists *)

Definition rpush (key : string) (xs : list string)
    (ks : gmap string entry) : (Z * goerr) * gmap string entry :=
  match xs with
  | [] => ((0, Some wrong_arity), ks)
  | _ =>
      match list_at key ks with
      | None => ((0, Some wrong_type), ks)
      | Some l =>
          ((Z.of_nat (length (l ++ xs)), None), <[key := EList (l ++ xs)]> ks)
      end
  end.

(** Modelled from the spec: LLEN. *)
Definition llen (key : string) (ks : gmap string entry) :
    (Z * goerr) * gmap string entry :=
  match list_at key ks with
  | None => ((0, Some wrong_type), ks)
  | Some l => ((Z.of_nat (length l), None), ks)
  end.

Definition lpop (key : string) (ks : gmap string entry) :
    (string * goerr) * gmap string entry :=
  match list_at key ks with
  | None => (("", Some wrong_type), ks)
  | Some [] => (("", Some redis.Nil), ks)
  | Some (x :: l) => ((x, None), put_list key l ks)
  end.

(** Modelled from the spec: LRANGE. *)
Definition lrange (key : string) (start stop : Z)
    (ks : gmap string entry) : (list string * goerr) * gmap string entry :=
  match list_at key ks with
  | None => (([], Some wrong_type), ks)
  | Some l => ((slice l start stop, None), ks)
  end.

Inductive side : Type := Left | Right.

(** The element at one end of a non-empty list, and the rest. *)
Definition take_from (a : side) (l : list string) : option (string * list string) :=
  match a with
  | Left => match l with [] => None | x :: l' => Some (x, l') end
  | Right => match last l with None => None | Some x => Some (x, removelast l) end
  end.

Definition push_to (b : side) (x : string) (l : list string) : list string :=
  match b with
  | Left => x :: l
  | Right => l ++ [x]
  end.

(** Modelled from the spec: LMOVE from end [a] of the source to end [b]
    of the destination ("atomic move-between-lists"); an absent source is
    the sentinel. *)
Definition lmove (a b : side) (source destination : string)
    (ks : gmap string entry) : (string * goerr) * gmap string entry :=
  match list_at source ks with
  | None => (("", Some wrong_type), ks)
  | Some l =>
      match take_from a l with
      | None => (("", Some redis.Nil), ks)
      | Some (x, l') =>
          match list_at destination ks with
          | None => (("", Some wrong_type), ks)
          | Some _ =>
              let ks1 := put_list source l' ks in
              let d := default [] (list_at destination ks1) in
              ((x, None), put_list destination (push_to b x d) ks1)
          end
      end
  end.

(** *** The model as a client

    What follows decodes the arguments of a client call for the keyspace.
    It is one client among those the statements speak of, used to run them;
    it never fails in transport and ignores the context. *)

(** The text the client writes for an argument: a string as it is, an
    integer in decimal, [true] and [false] as 1 and 0, nil as the empty
    string, a float, a byte slice or a time in the printed form the value
    carries; a value of any other type is refused. A type that implements
    [encoding.BinaryMarshaler] is not told apart here and is refused
    too. *)
Definition wire (v : iface) : option string :=
  match v with
  | IString s => Some s
  | IInt n => Some (pretty n)
  | IDyn type_name printed =>
      if decide (type_name = "bool")
      then Some (if decide (printed = "true") then "1" else "0")
      else if decide (type_name = "nil") then Some ""
      else if bool_decide
                (type_name ∈ ["float32"; "float64"; "[]uint8"; "time.Time"])
      then Some printed
      else None
  end.

Definition zwire (z : redis.Z float64) : option (float64 * string) :=
  m ← wire (redis.Member z); Some (redis.Score z, m).

Definition upper_ascii (a : Ascii.ascii) : Ascii.ascii :=
  let n := Ascii.N_of_ascii a in
  if ((97 <=? n) && (n <=? 122))%N then Ascii.ascii_of_N (n - 32) else a.

Fixpoint upper (s : string) : string :=
  match s with
  | EmptyString => EmptyString
  | String a s' => String (upper_ascii a) (upper s')
  end.

(** The position words of LMOVE, in any case. *)
Definition parse_side (s : string) : option side :=
  if decide (upper s = "LEFT") then Some Left
  else if decide (upper s = "RIGHT") then Some Right
  else None.

Definition fails {A : Type} (a : A) (e : redis.error)
    (ks : gmap string entry) : (A * goerr) * gmap string entry :=
  ((a, Some e), ks).

(** A command this client does not implement. *)
Definition refused {A : Type} (a : A) (ks : gmap string entry) :
    (A * goerr) * gmap string entry :=
  fails a unknown_command ks.

(** [ZPopMin] with its optional count. With more than one count go-redis
    panics before it sends anything; a call that does not return has no
    place in [redis.Result], so this client answers with the message of
    that panic as an error. *)
Definition client_ZPopMin (key : string) (count : list Z)
    (ks : gmap string entry) :
    (list (redis.Z float64) * goerr) * gmap string entry :=
  match count with
  | [] => zpop key 1 ks
  | [n] => if (n <? 0)%Z then fails [] out_of_range ks
           else zpop key (Z.to_nat n) ks
  | _ => fails [] too_many_arguments ks
  end.

Definition client : redis.Client float64 (gmap string entry) := {|
  redis.Ping := λ _, ping;
  redis.Get := λ _, get;
  redis.Set_ := λ _ key v _,
    match wire v with
    | Some s => set key s
    | None => fails "" cannot_marshal
    end;
  redis.Del := λ _, del;
  redis.ZAdd := λ _ key members,
    match mapM zwire members with
    | Some xs => zadd key xs
    | None => fails 0 cannot_marshal
    end;
  redis.ZCard := λ _, zcard;
  redis.ZPopMin := λ _, client_ZPopMin;
  redis.ZScore := λ _, zscore;
  redis.ZRem := λ _, zrem;
  redis.ZRange := λ _, zrange;
  redis.ZRangeByScore := λ _ _ _, refused [];
  redis.ZRangeByScoreWithScores := λ _ _ _, refused [];
  redis.RPush := λ _ key values,
    match mapM wire values with
    | Some xs => rpush key xs
    | None => fails 0 cannot_marshal
    end;
  redis.LLen := λ _, llen;
  redis.LRem := λ _ _ _ _, refused 0;
  redis.LSet := λ _ _ _ _, refused "";
  redis.LPop := λ _, lpop;
  redis.LRange := λ _, lrange;
  redis.LMove := λ _ source destination srcpos destpos,
    match parse_side srcpos, parse_side destpos with
    | Some a, Some b => lmove a b source destination
    | _, _ => fails "" syntax_error
    end;
  redis.SMembers := λ _ _, refused [];
  redis.SAdd := λ _ _ _, refused 0;
  redis.Incr := λ _ _, refused 0;
  redis.Expire := λ _ _ _, refused false;
  redis.Close := λ ks, (None, ks)
|}.

(** A client whose server cannot be reached: every call fails. *)
Definition refusing {A : Type} (a : A) (ks : gmap string entry) :
    (A * goerr) * gmap string entry :=
  ((a, Some (redis.Err "dial tcp 127.0.0.1:9876: connect: connection refused")),
   ks).

Definition unreachable : redis.Client float64 (gmap string entry) := {|
  redis.Ping := λ _, refusing "";
  redis.Get := λ _ _, refusing "";
  redis.Set_ := λ _ _ _ _, refusing "";
  redis.Del := λ _ _, refusing 0;
  redis.ZAdd := λ _ _ _, refusing 0;
  redis.ZCard := λ _ _, refusing 0;
  redis.ZPopMin := λ _ _ _, refusing [];
  redis.ZScore := λ _ _ _, refusing zero;
  redis.ZRem := λ _ _ _, refusing 0;
  redis.ZRange := λ _ _ _ _, refusing [];
  redis.ZRangeByScore := λ _ _ _, refusing [];
  redis.ZRangeByScoreWithScores := λ _ _ _, refusing [];
  redis.RPush := λ _ _ _, refusing 0;
  redis.LLen := λ _ _, refusing 0;
  redis.LRem := λ _ _ _ _, refusing 0;
  redis.LSet := λ _ _ _ _, refusing "";
  redis.LPop := λ _ _, refusing "";
  redis.LRange := λ _ _ _ _, refusing [];
  redis.LMove := λ _ _ _ _ _, refusing "";
  redis.SMembers := λ _ _, refusing [];
  redis.SAdd := λ _ _ _, refusing 0;
  redis.Incr := λ _ _, refusing 0;
  redis.Expire := λ _ _ _, refusing false;
  redis.Close := λ ks, (None, ks)
|}.

End Keyspace.

(** *** Clients that follow the store

    Modelled from the spec: what the statements about stored data assume
    of the client. [abs] reads the keyspace off the connection state. A
    client follows the store on a call when its reply is the store's reply
    and the keyspace it leaves is the store's. Each record names the calls
    it speaks of, with the argument shapes of the statement that uses it,
    and says nothing of any other call. *)
Section Contract.
Context {float64 Conn : Type} (lt : relation float64) `{!RelDecision lt}.
Context (cl : redis.Client float64 Conn).
Context (abs : Conn → gmap string (entry (float64 := float64))).

Definition follows {A : Type} (f : redis.Result Conn A)
    (g : gmap string entry → (A * goerr) * gmap string entry) : Prop :=
  ∀ st, (f st).1 = (g (abs st)).1 ∧ abs (f st).2 = (g (abs st)).2.

(** Modelled from the spec: SET of a string value without expiration,
    and GET. *)
Record strings : Prop := {
  strings_Set : ∀ ctx key (s : string),
    follows (redis.Set_ cl ctx key (IString s) 0) (set key s);
  strings_Get : ∀ ctx key, follows (redis.Get cl ctx key) (get key)
}.

(** Modelled from the spec: ZADD of string members with numeric scores,
    ZPOPMIN with no count, ZRANGE of the whole set. *)
Record zsets : Prop := {
  zsets_ZAdd : ∀ ctx key (xs : list (float64 * string)),
    xs ≠ [] → Forall (λ x, numeric lt x.1) xs →
    follows
      (redis.ZAdd cl ctx key ((λ x, redis.mkZ x.1 (IString x.2)) <$> xs))
      (zadd lt key xs);
  zsets_ZPopMin : ∀ ctx key,
    follows (redis.ZPopMin cl ctx key []) (zpop key 1);
  zsets_ZRange : ∀ ctx key,
    follows (redis.ZRange cl ctx key 0 (-1)) (zrange key 0 (-1))
}.

(** Modelled from the spec: LMOVE with the position words LEFT and RIGHT,
    LRANGE of the whole list, LLEN. *)
Record lists : Prop := {
  lists_LMove : ∀ ctx src dst,
    follows (redis.LMove cl ctx src dst "LEFT" "RIGHT")
      (lmove Left Right src dst);
  lists_LRange : ∀ ctx key,
    follows (redis.LRange cl ctx key 0 (-1)) (lrange key 0 (-1));
  lists_LLen : ∀ ctx key, follows (redis.LLen cl ctx key) (llen key)
}.

End Contract.
End model.

(** ** Concrete processes

    Scores are integers, the server is the model of the store (or cannot be
    reached), the logger ends the process on [Fatal]. [test_config] is the
    configuration of [TestRedis]. *)

Module demo.

Definition server : redis.Client Z (gmap string (model.entry (float64 := Z))) :=
  model.client Z.lt 0.

Definition reachable (_ : redis.Options) :
    redis.Client Z (gmap string (model.entry (float64 := Z))) :=
  server.

Definition down (_ : redis.Options) :
    redis.Client Z (gmap string (model.entry (float64 := Z))) :=
  model.unreachable 0.

Definition logger : Logger := mkLogger ExitProcess.

Definition zero_config : Config := mkConfig "" 0 "" 0 0 0.

Definition test_config : Config :=
  mkConfig "127.0.0.1" 9876 "596a96cc7bf9108cd896f33c44aedc8a" 0 0 0.

(** A process with one [Config] at address 1 and the given keyspace. *)
Definition start (k : Config) (ks : gmap string (model.entry (float64 := Z))) :
    World (gmap string (model.entry (float64 := Z))) :=
  mkWorld {[1%positive := k]} ks [].

Definition facade : cache Z (gmap string (model.entry (float64 := Z))) :=
  mkCache (Some server) logger (Some 1%positive).

Definition two_items : gmap string (model.entry (float64 := Z)) :=
  {["A" := model.EList ["x"; "y"]]}.

Definition members : list (redis.Z Z) :=
  [redis.mkZ 3 (IString "c"); redis.mkZ 1 (IString "a");
   redis.mkZ 2 (IString "b")].

Definition scored : list (Z * string) := [(3, "c"); (1, "a"); (2, "b")].

End demo.

(** The defaults as section 3 of the specification words them: a zero
    or empty field takes its default (host "127.0.0.1", port 6379,
    database 0, max retries 3, pool size 10), any other value is kept; the
    password has no default. *)
Definition resolved (k : Config) : Config := {|
  Host := if decide (Host k = "") then "127.0.0.1" else Host k;
  Port := if decide (Port k = 0) then 6379 else Port k;
  Password := Password k;
  DB := if decide (DB k = 0) then 0 else DB k;
  MaxRetries := if decide (MaxRetries k = 0) then 3 else MaxRetries k;
  PoolSize := if decide (PoolSize k = 0) then 10 else PoolSize k
|}.

(** The error a method returns for the error of the client. *)
Definition normalised (e : goerr) : goerr :=
  if decide (e = Some redis.Nil) then None else e.

Section Properties.
Context {float64 Conn : Type}.
Context (NewClient : redis.Options → redis.Client float64 Conn).

Implicit Types (c : cache float64 Conn) (cl : redis.Client float64 Conn).
Implicit Types (w : World Conn) (o : op float64).

Ltac unfold_methods :=
  cbv [run store_call tag Get Set_ Del ZAdd ZCard ZPopMin ZScore ZRem ZRange
       ZRangeByScoreWithScores ZRangeByScore RPush LLen LRem LSet LPop LRange
       LMove SMembers SAdd Ping Incr Expire
       call mbind Proc_bind mret Proc_ret client fst snd].

(** What the facade makes of the client's error. *)
Lemma run_store_call c cl o w :
  client c = Some cl →
  run c o w =
    let '((resp, err), s) := store_call cl o (conn w) in
    Returns (resp, if decide (err = Some redis.Nil) then None else err)
      (with_conn s w).
Proof.
  intros Hcl. destruct c as [? lg cf]; simpl in Hcl; subst.
  destruct o; unfold_methods;
    match goal with
    | |- context [let '(_, _) := ?x in _] => destruct x as [[r e] s]
    end; cbn -[decide];
    destruct e as [[|msg]|]; reflexivity.
Qed.

(** C1. For each of the 23 operations and every input: when the client
    call reports [redis.Nil], the operation returns the client's reply with
    a nil error; any other error (and a nil one) is returned as it is, with
    the same reply. *)
Theorem absence_is_not_an_error c cl o w resp err s :
  client c = Some cl →
  store_call cl o (conn w) = ((resp, err), s) →
  (err = Some redis.Nil →
     run c o w = Returns (resp, None) (with_conn s w)) ∧
  (∀ e, err = Some e → e ≠ redis.Nil →
     run c o w = Returns (resp, Some e) (with_conn s w)) ∧
  (err = None → run c o w = Returns (resp, None) (with_conn s w)).
Proof.
  intros Hcl Hcall. rewrite (run_store_call c cl o w Hcl), Hcall.
  repeat split.
  - intros ->. by rewrite decide_True.
  - intros e -> Hne. rewrite decide_False; [done | congruence].
  - intros ->. by rewrite decide_False.
Qed.

(** *** Heap steps *)

Lemma heap_put l k w : heap (put l k w) !! l = Some k.
Proof. apply lookup_insert_eq. Qed.

Lemma put_put l k1 k2 w : put l k2 (put l k1 w) = put l k2 w.
Proof. unfold put, with_heap; simpl. by rewrite insert_insert_eq. Qed.

Lemma put_same l k w : heap w !! l = Some k → put l k w = w.
Proof.
  intros H. destruct w as [h s lg]; unfold put, with_heap; simpl in *.
  by rewrite insert_id.
Qed.

Lemma load_at l k w : heap w !! l = Some k → load (Some l) w = Returns k w.
Proof. intros H. unfold load. by rewrite H. Qed.

Lemma cond_store l k (P : Prop) `{!Decision P} (f : Config → Config) w :
  heap w !! l = Some k →
  (if decide P then store (Some l) f else mret ()) w
  = Returns () (put l (if decide P then f k else k) w).
Proof.
  intros H. destruct (decide P).
  - unfold store. by rewrite H.
  - unfold mret, Proc_ret. by rewrite put_same.
Qed.

(** [defaults] on a live pointer: it returns, and the pointee becomes the
    resolved configuration; nothing else of the process changes. *)
Lemma defaults_at c l k w :
  config c = Some l → heap w !! l = Some k →
  defaults c w = Returns () (put l (resolved k) w).
Proof.
  intros Hc Hk. unfold defaults. rewrite Hc.
  unfold mbind, Proc_bind.
  rewrite (load_at l k w Hk), (cond_store l k _ _ w Hk).
  set (k1 := if decide (Host k = "") then _ else _).
  rewrite (load_at l k1), (cond_store l k1) by apply heap_put.
  set (k2 := if decide (Port k1 = 0) then _ else _).
  rewrite put_put.
  rewrite (load_at l k2), (cond_store l k2) by apply heap_put.
  set (k3 := if decide (DB k2 = 0) then _ else _).
  rewrite put_put.
  rewrite (load_at l k3), (cond_store l k3) by apply heap_put.
  set (k4 := if decide (MaxRetries k3 = 0) then _ else _).
  rewrite put_put.
  rewrite (load_at l k4), (cond_store l k4) by apply heap_put.
  rewrite put_put. f_equal. f_equal.
  subst k4 k3 k2 k1. destruct k as [h p pw d m ps]; unfold resolved; simpl.
  repeat case_decide; simpl in *; subst; first [reflexivity | congruence].
Qed.

(** C3. [defaults] replaces each zero or empty field of the configuration
    it points to by its default and keeps every other field; on the
    all-zero configuration the result is
    {127.0.0.1, 6379, database 0, 3 retries, pool of 10}. *)
Theorem defaults_resolves_zero_fields c l k w :
  config c = Some l → heap w !! l = Some k →
  ∃ k',
    defaults c w = Returns () (put l k' w) ∧
    Host k' = (if decide (Host k = "") then "127.0.0.1" else Host k) ∧
    Port k' = (if decide (Port k = 0) then 6379 else Port k) ∧
    Password k' = Password k ∧
    DB k' = DB k ∧
    MaxRetries k' = (if decide (MaxRetries k = 0) then 3 else MaxRetries k) ∧
    PoolSize k' = (if decide (PoolSize k = 0) then 10 else PoolSize k) ∧
    (k = mkConfig "" 0 "" 0 0 0 → k' = mkConfig "127.0.0.1" 6379 "" 0 3 10).
Proof.
  intros Hc Hk. exists (resolved k). split; [by apply defaults_at |].
  repeat split; try reflexivity.
  - unfold resolved; simpl. by case_decide.
  - by intros ->.
Qed.

(** *** The constructor *)

(** [NewCache] on a nil pointer panics in [defaults]. *)
Lemma NewCache_nil log w :
  NewCache NewClient None log w = Panics nil_dereference.
Proof. reflexivity. Qed.

Lemma NewCache_dangling l log w :
  heap w !! l = None → NewCache NewClient (Some l) log w = Panics nil_dereference.
Proof.
  intros H. unfold NewCache, defaults, mbind, Proc_bind, load; simpl.
  by rewrite H.
Qed.

(** [NewCache] on a live pointer, step by step. *)
Lemma NewCache_at l k log w :
  heap w !! l = Some k →
  NewCache NewClient (Some l) log w =
    let cl := NewClient (options (resolved k)) in
    let '((_, err), s) := redis.Ping cl Background (conn w) in
    let w1 := with_conn s (put l (resolved k) w) in
    let c := mkCache (Some cl) log (Some l) in
    match err with
    | None => Returns (c, None) w1
    | Some e =>
        let w2 := with_logged ("fatal", "redis", ping_failed e) w1 in
        match on_fatal log with
        | ExitProcess => Exits 1 w2
        | PanicProcess => Panics nil_dereference
        | ReturnToCaller => Returns (c, None) w2
        end
    end.
Proof.
  intros Hk. unfold NewCache.
  unfold mbind at 1, Proc_bind at 1.
  rewrite (defaults_at (mkCache None log (Some l)) l k w eq_refl Hk).
  unfold mbind at 1, Proc_bind at 1. simpl config.
  rewrite (load_at l (resolved k)) by apply heap_put.
  unfold mbind, Proc_bind, call, mret, Proc_ret, Fatal. simpl.
  destruct (redis.Ping _ _ _) as [[r [e|]] s]; simpl; [|done].
  by destruct (on_fatal log).
Qed.

(** C10. Whenever [NewCache] returns, the error it returns is nil, for
    every configuration pointer, logger and state of the process. *)
Theorem NewCache_error_is_nil conf log w c e w' :
  NewCache NewClient conf log w = Returns (c, e) w' → e = None.
Proof.
  destruct conf as [l|]; [|by rewrite NewCache_nil].
  destruct (heap w !! l) as [k|] eqn:Hk; [|by rewrite NewCache_dangling].
  rewrite (NewCache_at l k log w Hk). simpl.
  destruct (redis.Ping _ _ _) as [[r [e'|]] s]; simpl.
  - destruct (on_fatal log); congruence.
  - congruence.
Qed.

(** C2. With a logger whose [Fatal] ends the process, a failed ping during
    construction ends the process with status 1, after the resolved
    defaults were written and the failure was logged; [NewCache] does not
    return, so no error reaches the caller. *)
Theorem failed_ping_exits log l k w resp e s :
  on_fatal log = ExitProcess →
  heap w !! l = Some k →
  redis.Ping (NewClient (options (resolved k))) Background (conn w)
    = ((resp, Some e), s) →
  NewCache NewClient (Some l) log w
    = Exits 1 (with_logged ("fatal", "redis", ping_failed e)
                 (with_conn s (put l (resolved k) w)))
  ∧ ∀ r w', NewCache NewClient (Some l) log w ≠ Returns r w'.
Proof.
  intros Hlog Hk Hping.
  rewrite (NewCache_at l k log w Hk). simpl. rewrite Hping, Hlog.
  split; [reflexivity | discriminate].
Qed.

(** C9. When [NewCache] returns, the pointer it was given is live, the
    cache keeps that very pointer, and the caller's [Config] behind it now
    holds the resolved defaults; no other [Config] was written. *)
Theorem NewCache_writes_through conf log w c e w' :
  NewCache NewClient conf log w = Returns (c, e) w' →
  ∃ l k,
    conf = Some l ∧ heap w !! l = Some k ∧
    config c = conf ∧
    heap w' !! l = Some (resolved k) ∧
    ∀ l', l' ≠ l → heap w' !! l' = heap w !! l'.
Proof.
  destruct conf as [l|]; [|by rewrite NewCache_nil].
  destruct (heap w !! l) as [k|] eqn:Hk; [|by rewrite NewCache_dangling].
  rewrite (NewCache_at l k log w Hk). simpl.
  intros H. exists l, k.
  assert (config c = Some l ∧ heap w' = <[l := resolved k]> (heap w))
    as [Hc Hh].
  { destruct (redis.Ping _ _ _) as [[r [e'|]] s]; simpl in H.
    - destruct (on_fatal log); try discriminate.
      by injection H as <- <- <-.
    - by injection H as <- <- <-. }
  rewrite Hh. repeat split; try done.
  - apply lookup_insert_eq.
  - intros l' Hne. by apply lookup_insert_ne.
Qed.

(** *** Frame *)

(** C7. No operation of the facade, [Close] included, writes the
    configuration: the heap of [Config] values is the same after the call,
    so every field behind [c.config] is unchanged. *)
Theorem operations_keep_config c w :
  (∀ o r w', run c o w = Returns r w' → heap w' = heap w) ∧
  (∀ e w', Close c w = Returns e w' → heap w' = heap w) ∧
  (∀ o code w', run c o w ≠ Exits code w') ∧
  (∀ code w', Close c w ≠ Exits code w').
Proof.
  destruct c as [[cl|] lg cf].
  - repeat split.
    + intros o r w'. rewrite (run_store_call (mkCache (Some cl) lg cf) cl o w eq_refl).
      destruct (store_call cl o (conn w)) as [[resp err] s].
      by intros [= <- <-].
    + intros e w'. unfold Close; simpl.
      destruct (redis.Close cl (conn w)) as [e' s]. by intros [= <- <-].
    + intros o code w'. rewrite (run_store_call (mkCache (Some cl) lg cf) cl o w eq_refl).
      by destruct (store_call cl o (conn w)) as [[resp err] s].
    + intros code w'. unfold Close; simpl.
      by destruct (redis.Close cl (conn w)) as [e' s].
  - repeat split; try (intros o; destruct o; unfold_methods; discriminate);
      unfold Close; simpl; discriminate.
Qed.

(** *** Behind a client that follows the store *)

Section Following.
Context (abs : Conn → gmap string (model.entry (float64 := float64))).

(** Every method has this shape: when the client follows the store on
    the call, the method returns the store's reply with the error
    normalised, and leaves the store's keyspace. *)
Lemma forwarded {A : Type} cl
    (f : redis.Client float64 Conn → redis.Result Conn A) g w :
  model.follows abs (f cl) g →
  ∃ w',
    ('(response, err) ← call (Some cl) f;
     if decide (err ≠ None ∧ err ≠ Some redis.Nil) then mret (response, err)
     else mret (response, None)) w
    = Returns ((g (abs (conn w))).1.1, normalised (g (abs (conn w))).1.2) w'
    ∧ abs (conn w') = (g (abs (conn w))).2.
Proof.
  intros Hf. destruct (Hf (conn w)) as [Hr Hs].
  unfold mbind, Proc_bind, call.
  destruct (f cl (conn w)) as [[r e] s] eqn:Hcall; simpl in *.
  exists (with_conn s w). rewrite <- Hr. split; [|exact Hs].
  unfold normalised. simpl. by destruct e as [[|msg]|].
Qed.

Lemma Set_follows c cl ctx key (s : string) w :
  model.strings cl abs → client c = Some cl →
  ∃ w', Set_ c ctx key (IString s) 0 w = Returns ("OK", None) w'
        ∧ abs (conn w') = <[key := model.EString s]> (abs (conn w)).
Proof.
  intros H Hcl. unfold Set_. rewrite Hcl.
  apply (forwarded cl (λ cl, redis.Set_ cl ctx key (IString s) 0)
           (model.set key s)), H.
Qed.

Lemma Get_follows c cl ctx key w :
  model.strings cl abs → client c = Some cl →
  ∃ w', Get c ctx key w
        = Returns ((model.get key (abs (conn w))).1.1,
                   normalised (model.get key (abs (conn w))).1.2) w'
        ∧ abs (conn w') = (model.get key (abs (conn w))).2.
Proof.
  intros H Hcl. unfold Get. rewrite Hcl.
  apply (forwarded cl (λ cl, redis.Get cl ctx key)), H.
Qed.

(** C4, as amended. Behind a client that follows the store on SET and
    GET: for every key and every string [v], [Set(key, v, 0)] followed by
    [Get(key)] on the same facade returns [v] and a nil error. *)
Theorem set_then_get c cl ctx ctx' key (v : string) w :
  model.strings cl abs → client c = Some cl →
  ∃ r w1 w2,
    Set_ c ctx key (IString v) 0 w = Returns (r, None) w1 ∧
    Get c ctx' key w1 = Returns (v, None) w2.
Proof.
  intros H Hcl.
  destruct (Set_follows c cl ctx key v w H Hcl) as (w1 & Hset & Hks).
  destruct (Get_follows c cl ctx' key w1 H Hcl) as (w2 & Hget & _).
  exists "OK", w1, w2. split; [exact Hset |].
  rewrite Hget, Hks. unfold model.get.
  by rewrite lookup_insert_eq.
Qed.

(** *** Lists *)

Lemma slice_all {A : Type} (l : list A) : model.slice l 0 (-1) = l.
Proof.
  unfold model.slice. cbn [Z.ltb Z.compare].
  destruct (Z.ltb_spec (Z.of_nat (length l) + -1) 0) as [Hlt|Hge].
  - destruct l; [done | cbn [length] in Hlt; lia].
  - rewrite drop_0. apply take_ge. lia.
Qed.

Lemma list_at_put_list key l (ks : gmap string (model.entry (float64 := float64))) :
  model.list_at key (model.put_list key l ks) = Some l.
Proof.
  unfold model.list_at, model.put_list. destruct l.
  - by rewrite lookup_delete_eq.
  - by rewrite lookup_insert_eq.
Qed.

Lemma lookup_put_list_ne key key' l
    (ks : gmap string (model.entry (float64 := float64))) :
  key ≠ key' → model.put_list key l ks !! key' = ks !! key'.
Proof.
  intros Hne. unfold model.put_list. destruct l.
  - by rewrite lookup_delete_ne.
  - by rewrite lookup_insert_ne.
Qed.

Lemma list_at_put_list_ne key key' l
    (ks : gmap string (model.entry (float64 := float64))) :
  key ≠ key' →
  model.list_at key' (model.put_list key l ks) = model.list_at key' ks.
Proof. intros Hne. unfold model.list_at. by rewrite lookup_put_list_ne. Qed.

(** The store's LMOVE from the head of one list to the tail of
    another. *)
Lemma lmove_left_right src dst x l d
    (ks : gmap string (model.entry (float64 := float64))) :
  src ≠ dst →
  model.list_at src ks = Some (x :: l) →
  model.list_at dst ks = Some d →
  model.lmove model.Left model.Right src dst ks
  = ((x, None),
     model.put_list dst (d ++ [x]) (model.put_list src l ks)).
Proof.
  intros Hne Hs Hd. unfold model.lmove.
  rewrite Hs; simpl. rewrite Hd.
  by rewrite (list_at_put_list_ne src dst), Hd.
Qed.

Lemma LMove_follows c cl ctx src dst w :
  model.lists cl abs → client c = Some cl →
  ∃ w', LMove c ctx src dst "LEFT" "RIGHT" w
        = Returns
            ((model.lmove model.Left model.Right src dst (abs (conn w))).1.1,
             normalised
               (model.lmove model.Left model.Right src dst (abs (conn w))).1.2)
            w'
        ∧ abs (conn w')
          = (model.lmove model.Left model.Right src dst (abs (conn w))).2.
Proof.
  intros H Hcl. unfold LMove. rewrite Hcl.
  apply (forwarded cl (λ cl, redis.LMove cl ctx src dst "LEFT" "RIGHT")), H.
Qed.

Lemma LRange_follows c cl ctx key w :
  model.lists cl abs → client c = Some cl →
  ∃ w', LRange c ctx key 0 (-1) w
        = Returns ((model.lrange key 0 (-1) (abs (conn w))).1.1,
                   normalised (model.lrange key 0 (-1) (abs (conn w))).1.2)
            w'
        ∧ abs (conn w') = (model.lrange key 0 (-1) (abs (conn w))).2.
Proof.
  intros H Hcl. unfold LRange. rewrite Hcl.
  apply (forwarded cl (λ cl, redis.LRange cl ctx key 0 (-1))), H.
Qed.

Lemma LLen_follows c cl ctx key w :
  model.lists cl abs → client c = Some cl →
  ∃ w', LLen c ctx key w
        = Returns ((model.llen key (abs (conn w))).1.1,
                   normalised (model.llen key (abs (conn w))).1.2) w'
        ∧ abs (conn w') = (model.llen key (abs (conn w))).2.
Proof.
  intros H Hcl. unfold LLen. rewrite Hcl.
  apply (forwarded cl (λ cl, redis.LLen cl ctx key)), H.
Qed.

(** C6, as amended. Behind a client that follows the store on the list
    commands: when key [A] holds the non-empty list [a :: la] and a
    different key [B] holds the list [lb] (empty when [B] is absent),
    [LMove(A, B, "LEFT", "RIGHT")] returns [a] with a nil error; after it
    [A] reads [la] and [B] reads [lb ++ [a]] through [LRange], their
    lengths through [LLen] are one less and one more, and no other key
    has changed. *)
Theorem lmove_head_to_tail c cl ctx A B a la lb w :
  model.lists cl abs → client c = Some cl →
  A ≠ B →
  model.list_at A (abs (conn w)) = Some (a :: la) →
  model.list_at B (abs (conn w)) = Some lb →
  ∃ w1,
    LMove c ctx A B "LEFT" "RIGHT" w = Returns (a, None) w1 ∧
    (∀ ctx', ∃ w2, LRange c ctx' A 0 (-1) w1 = Returns (la, None) w2) ∧
    (∀ ctx', ∃ w2,
       LRange c ctx' B 0 (-1) w1 = Returns ((lb ++ [a])%list, None) w2) ∧
    (∀ ctx', ∃ w2,
       LLen c ctx' A w1
       = Returns (Z.of_nat (length (a :: la)) - 1, None) w2) ∧
    (∀ ctx', ∃ w2,
       LLen c ctx' B w1 = Returns (Z.of_nat (length lb) + 1, None) w2) ∧
    (∀ key, key ≠ A → key ≠ B →
       abs (conn w1) !! key = abs (conn w) !! key).
Proof.
  intros H Hcl Hne HA HB.
  destruct (LMove_follows c cl ctx A B w H Hcl) as (w1 & Hmove & Hks).
  rewrite (lmove_left_right A B a la lb _ Hne HA HB) in Hmove, Hks.
  simpl in Hmove, Hks.
  assert (model.list_at A (abs (conn w1)) = Some la) as HA1.
  { rewrite Hks, list_at_put_list_ne by done. apply list_at_put_list. }
  assert (model.list_at B (abs (conn w1)) = Some (lb ++ [a])%list) as HB1.
  { rewrite Hks. apply list_at_put_list. }
  exists w1. split; [exact Hmove |]. repeat split.
  - intros ctx'.
    destruct (LRange_follows c cl ctx' A w1 H Hcl) as (w2 & Hr & _).
    exists w2. rewrite Hr. unfold model.lrange. rewrite HA1. simpl.
    by rewrite slice_all.
  - intros ctx'.
    destruct (LRange_follows c cl ctx' B w1 H Hcl) as (w2 & Hr & _).
    exists w2. rewrite Hr. unfold model.lrange. rewrite HB1. simpl.
    by rewrite slice_all.
  - intros ctx'.
    destruct (LLen_follows c cl ctx' A w1 H Hcl) as (w2 & Hr & _).
    exists w2. rewrite Hr. unfold model.llen. rewrite HA1. simpl.
    do 2 f_equal. lia.
  - intros ctx'.
    destruct (LLen_follows c cl ctx' B w1 H Hcl) as (w2 & Hr & _).
    exists w2. rewrite Hr. unfold model.llen. rewrite HB1. simpl.
    do 2 f_equal. rewrite length_app. simpl. lia.
  - intros key HkA HkB. rewrite Hks.
    by rewrite !lookup_put_list_ne.
Qed.

(** *** Sorted sets *)

Section Ordered.
Context (lt : relation float64) `{!RelDecision lt}.
Context `{!StrictOrder lt}.

#[local] Abbreviation by_score := (λ x y : float64 * string, lt x.1 y.1).

Lemma apart_sym s t : model.apart lt s t → model.apart lt t s.
Proof. unfold model.apart. tauto. Qed.

Lemma before_true x y :
  model.apart lt x.1 y.1 → model.before lt x y = true → lt x.1 y.1.
Proof.
  intros Hap. unfold model.before.
  destruct (decide (lt x.1 y.1)) as [|Hxy]; [done |].
  destruct (decide (lt y.1 x.1)) as [|Hyx]; [done |].
  by destruct Hap.
Qed.

Lemma before_false x y :
  model.apart lt x.1 y.1 → model.before lt x y = false → lt y.1 x.1.
Proof.
  intros Hap. unfold model.before.
  destruct (decide (lt x.1 y.1)) as [|Hxy]; [done |].
  destruct (decide (lt y.1 x.1)) as [|Hyx]; [done |].
  by destruct Hap.
Qed.

Lemma zinsert_perm x zs : model.zinsert lt x zs ≡ₚ x :: zs.
Proof.
  induction zs as [|y zs IH]; simpl; [done |].
  destruct (model.before lt x y); [done |].
  rewrite IH. apply Permutation_swap.
Qed.

Lemma zinsert_sorted x zs :
  Forall (λ y, model.apart lt x.1 y.1) zs →
  StronglySorted by_score zs →
  StronglySorted by_score (model.zinsert lt x zs).
Proof.
  intros Hx Hs. induction Hs as [|y zs Hs IH Hy]; simpl.
  - repeat constructor.
  - apply Forall_cons in Hx as [Hxy Hx].
    destruct (model.before lt x y) eqn:Hb.
    + apply before_true in Hb; [|done].
      constructor; [by constructor |].
      constructor; [done |].
      eapply Forall_impl; [exact Hy |]. intros z Hz. simpl in *.
      by etrans.
    + apply before_false in Hb; [|done].
      constructor; [by apply IH |].
      rewrite zinsert_perm. by constructor.
Qed.

Lemma zremove_sorted m zs :
  StronglySorted by_score zs → StronglySorted by_score (model.zremove m zs).
Proof.
  intros Hs. induction Hs as [|y zs Hs IH Hy]; [constructor |].
  unfold model.zremove in *. rewrite filter_cons.
  destruct (decide (y.2 ≠ m)); [|done].
  constructor; [done |].
  apply Forall_forall. intros z [_ Hz]%list_elem_of_filter.
  by eapply Forall_forall in Hy.
Qed.

Lemma elem_of_zadd1 zs x y :
  y ∈ model.zadd1 lt zs x ↔ y = x ∨ (y.2 ≠ x.2 ∧ y ∈ zs).
Proof.
  unfold model.zadd1, model.zremove.
  by rewrite zinsert_perm, elem_of_cons, list_elem_of_filter.
Qed.

Lemma zadd1_well_kept zs x :
  Forall (λ y, model.apart lt x.1 y.1) zs →
  model.well_kept lt zs → model.well_kept lt (model.zadd1 lt zs x).
Proof.
  intros Hx [Hs Hn]. split.
  - apply zinsert_sorted; [|by apply zremove_sorted].
    apply Forall_forall. intros y [_ Hy]%list_elem_of_filter.
    by eapply Forall_forall in Hx.
  - unfold model.zadd1. rewrite zinsert_perm, fmap_cons.
    constructor.
    + intros (y & Hy1 & [Hy _]%list_elem_of_filter)%list_elem_of_fmap.
      done.
    + apply (sublist_NoDup _ (zs.*2)); [exact Hn |].
      apply fmap_sublist, sublist_filter.
Qed.

Lemma members_zadd1 zs x m :
  m ∈ (model.zadd1 lt zs x).*2 ↔ m = x.2 ∨ m ∈ zs.*2.
Proof.
  rewrite !list_elem_of_fmap. split.
  - intros (y & -> & Hy). apply elem_of_zadd1 in Hy as [->|[_ Hy]]; eauto.
  - intros [->|(y & -> & Hy)].
    + exists x. split; [done |]. apply elem_of_zadd1. by left.
    + destruct (decide (y.2 = x.2)) as [Heq|Hne].
      * exists x. split; [done |]. apply elem_of_zadd1. by left.
      * exists y. split; [done |]. apply elem_of_zadd1. by right.
Qed.

Lemma zadd_all_well_kept xs zs :
  model.distinct lt (xs.*1) →
  (∀ x z, x ∈ xs → z ∈ zs → model.apart lt x.1 z.1) →
  model.well_kept lt zs →
  model.well_kept lt (foldl (model.zadd1 lt) zs xs)
  ∧ (∀ y, y ∈ foldl (model.zadd1 lt) zs xs → y ∈ xs ∨ y ∈ zs)
  ∧ (∀ m, m ∈ (foldl (model.zadd1 lt) zs xs).*2 ↔ m ∈ xs.*2 ∨ m ∈ zs.*2).
Proof.
  revert zs. induction xs as [|x xs IH]; intros zs Hnd Hfresh Hwk.
  - split; [done |]. split; [by right |].
    intros m. rewrite fmap_nil, elem_of_nil. tauto.
  - rewrite fmap_cons in Hnd. destruct Hnd as [Hx Hnd].
    change (foldl (model.zadd1 lt) zs (x :: xs))
      with (foldl (model.zadd1 lt) (model.zadd1 lt zs x) xs).
    destruct (IH (model.zadd1 lt zs x)) as (Hwk' & Hin & Hmem); [done | |  |].
    + intros x' z Hx' Hz.
      apply elem_of_zadd1 in Hz as [->|[_ Hz]].
      * apply apart_sym. eapply Forall_forall in Hx; [exact Hx |].
        by apply list_elem_of_fmap_2.
      * apply Hfresh; [by right | done].
    + apply zadd1_well_kept; [|done].
      apply Forall_forall. intros z Hz. apply Hfresh; [by left | done].
    + split; [done |]. split.
      * intros y [Hy|Hy]%Hin; [left; by right |].
        apply elem_of_zadd1 in Hy as [->|[_ Hy]]; [left; by left | by right].
      * intros m. rewrite Hmem, members_zadd1, fmap_cons, elem_of_cons.
        tauto.
Qed.

Lemma zset_at_put_zset key zs
    (ks : gmap string (model.entry (float64 := float64))) :
  model.zset_at key (model.put_zset key zs ks) = Some zs.
Proof.
  unfold model.zset_at, model.put_zset. destruct zs.
  - by rewrite lookup_delete_eq.
  - by rewrite lookup_insert_eq.
Qed.

Lemma ZAdd_follows c cl ctx key (xs : list (float64 * string)) w :
  model.zsets lt cl abs → client c = Some cl →
  xs ≠ [] → Forall (λ x, model.numeric lt x.1) xs →
  ∃ w', ZAdd c ctx key ((λ x, redis.mkZ x.1 (IString x.2)) <$> xs) w
        = Returns ((model.zadd lt key xs (abs (conn w))).1.1,
                   normalised (model.zadd lt key xs (abs (conn w))).1.2) w'
        ∧ abs (conn w') = (model.zadd lt key xs (abs (conn w))).2.
Proof.
  intros H Hcl Hne Hnum. unfold ZAdd. rewrite Hcl.
  apply (forwarded cl
           (λ cl, redis.ZAdd cl ctx key
                    ((λ x, redis.mkZ x.1 (IString x.2)) <$> xs))).
  by apply H.
Qed.

Lemma ZPopMin_follows c cl ctx key w :
  model.zsets lt cl abs → client c = Some cl →
  ∃ w', ZPopMin c ctx key [] w
        = Returns ((model.zpop key 1 (abs (conn w))).1.1,
                   normalised (model.zpop key 1 (abs (conn w))).1.2) w'
        ∧ abs (conn w') = (model.zpop key 1 (abs (conn w))).2.
Proof.
  intros H Hcl. unfold ZPopMin. rewrite Hcl.
  apply (forwarded cl (λ cl, redis.ZPopMin cl ctx key [])), H.
Qed.

Lemma ZRange_follows c cl ctx key w :
  model.zsets lt cl abs → client c = Some cl →
  ∃ w', ZRange c ctx key 0 (-1) w
        = Returns ((model.zrange key 0 (-1) (abs (conn w))).1.1,
                   normalised (model.zrange key 0 (-1) (abs (conn w))).1.2)
            w'
        ∧ abs (conn w') = (model.zrange key 0 (-1) (abs (conn w))).2.
Proof.
  intros H Hcl. unfold ZRange. rewrite Hcl.
  apply (forwarded cl (λ cl, redis.ZRange cl ctx key 0 (-1))), H.
Qed.

Lemma pop_and_range_S c ctx key n w :
  pop_and_range c ctx key (S n) w =
    match ZPopMin c ctx key [] w with
    | Returns popped w1 =>
        match ZRange c ctx key 0 (-1) w1 with
        | Returns rest w2 =>
            match pop_and_range c ctx key n w2 with
            | Returns more w3 => Returns ((popped, rest) :: more) w3
            | Panics msg => Panics msg
            | Exits code w3 => Exits code w3
            end
        | Panics msg => Panics msg
        | Exits code w2 => Exits code w2
        end
    | Panics msg => Panics msg
    | Exits code w1 => Exits code w1
    end.
Proof. reflexivity. Qed.

(** Popping a sorted set empty, one member at a time. *)
Lemma pop_and_range_all c cl ctx key zs w :
  model.zsets lt cl abs → client c = Some cl →
  model.zset_at key (abs (conn w)) = Some zs →
  ∃ w', pop_and_range c ctx key (length zs) w
        = Returns (model.pops_of zs) w'.
Proof.
  intros H Hcl. revert w. induction zs as [|z rest IH]; intros w Hks.
  - by exists w.
  - cbn [length]. rewrite pop_and_range_S.
    destruct (ZPopMin_follows c cl ctx key w H Hcl) as (w1 & -> & Hks1).
    unfold model.zpop in Hks1 |- *.
    rewrite Hks in Hks1. rewrite Hks. simpl in Hks1.
    destruct (ZRange_follows c cl ctx key w1 H Hcl) as (w2 & -> & Hks2).
    assert (model.zrange key 0 (-1) (abs (conn w1))
            = ((rest.*2, None), abs (conn w1))) as Hrange.
    { unfold model.zrange. by rewrite Hks1, zset_at_put_zset, slice_all. }
    rewrite Hrange in Hks2 |- *. simpl in Hks2.
    destruct (IH w2) as (w3 & ->).
    { by rewrite Hks2, Hks1, zset_at_put_zset. }
    by exists w3.
Qed.

Lemma pops_of_lookup (zs : list (float64 * string)) j z :
  zs !! j = Some z →
  model.pops_of zs !! j
  = Some (([redis.mkZ z.1 (IString z.2)], None),
          ((drop (S j) zs).*2, None)).
Proof.
  revert j. induction zs as [|y zs IH]; intros [|j] Hj; try done.
  - by injection Hj as ->.
  - simpl in *. by apply IH.
Qed.

Lemma length_pops_of (zs : list (float64 * string)) :
  length (model.pops_of zs) = length zs.
Proof. induction zs; simpl; congruence. Qed.

Lemma popped_is_gone (zs : list (float64 * string)) i j z :
  NoDup zs.*2 → zs !! i = Some z → (i ≤ j)%nat →
  z.2 ∉ (drop (S j) zs).*2.
Proof.
  intros Hnd Hi Hij.
  rewrite <- (take_drop (S j) zs), fmap_app, NoDup_app in Hnd.
  destruct Hnd as (_ & Hdis & _). apply Hdis.
  apply list_elem_of_fmap_2, list_elem_of_lookup. exists i.
  rewrite lookup_take_lt; [done | lia].
Qed.

(** C5. Behind a client that follows the store on the sorted-set
    commands, on a key that holds nothing: after [ZAdd] of string members
    [xs] with numeric, pairwise distinct scores the set holds [zs], one
    entry per member given, each with a score it was given, in strictly
    ascending order of score; popping the minimum [length zs] times with no
    count returns the entries of [zs] one at a time in that order, each as
    the [redis.Z] of its score and member with a nil error, and
    [ZRange(key, 0, -1)] after the pop number [j] returns the members that
    remain, none of which was popped before. *)
Theorem zpopmin_ascending c cl ctx key (xs : list (float64 * string)) w :
  model.zsets lt cl abs → client c = Some cl →
  abs (conn w) !! key = None →
  xs ≠ [] →
  Forall (λ x, model.numeric lt x.1) xs →
  model.distinct lt (xs.*1) →
  ∃ zs w1 w2 trace,
    ZAdd c ctx key ((λ x, redis.mkZ x.1 (IString x.2)) <$> xs) w
    = Returns (Z.of_nat (length zs), None) w1 ∧
    pop_and_range c ctx key (length zs) w1 = Returns trace w2 ∧
    length trace = length zs ∧
    (∀ j z, zs !! j = Some z →
       trace !! j
       = Some (([redis.mkZ z.1 (IString z.2)], None),
               ((drop (S j) zs).*2, None))) ∧
    StronglySorted (λ x y, lt x.1 y.1) zs ∧
    NoDup zs.*2 ∧
    (∀ i j z, zs !! i = Some z → (i ≤ j)%nat →
       z.2 ∉ (drop (S j) zs).*2) ∧
    (∀ z, z ∈ zs → z ∈ xs) ∧
    (∀ m, m ∈ zs.*2 ↔ m ∈ xs.*2).
Proof.
  intros H Hcl Hfresh Hne Hnum Hdis.
  destruct (zadd_all_well_kept xs []) as ([Hsorted Hmem] & Hin & Hmems).
  { exact Hdis. }
  { intros x z _ Hz. by apply elem_of_nil in Hz. }
  { split; constructor. }
  set (zs := foldl (model.zadd1 lt) [] xs) in *.
  destruct (ZAdd_follows c cl ctx key xs w H Hcl Hne Hnum)
    as (w1 & Hadd & Hks1).
  assert (model.zadd lt key xs (abs (conn w))
          = ((Z.of_nat (length zs), None),
             <[key := model.EZSet zs]> (abs (conn w)))) as Hzadd.
  { unfold model.zadd, model.zset_at. rewrite Hfresh.
    destruct xs as [|x xs']; [done |].
    fold zs. cbn [length]. by rewrite Z.sub_0_r. }
  rewrite Hzadd in Hadd, Hks1. cbn [fst snd] in Hadd, Hks1.
  destruct (pop_and_range_all c cl ctx key zs w1 H Hcl) as (w2 & Hpops).
  { unfold model.zset_at. by rewrite Hks1, lookup_insert_eq. }
  exists zs, w1, w2, (model.pops_of zs).
  split; [exact Hadd |]. split; [exact Hpops |].
  split; [apply length_pops_of |].
  split; [apply pops_of_lookup |].
  split; [exact Hsorted |].
  split; [exact Hmem |].
  split; [intros i j z; by apply popped_is_gone |].
  split.
  - intros z [Hz|Hz]%Hin; [done | by apply elem_of_nil in Hz].
  - intros m. rewrite Hmems, fmap_nil, elem_of_nil. tauto.
Qed.

End Ordered.

End Following.

End Properties.

(** ** The statements at concrete processes *)

Lemma server_follows_strings : model.strings demo.server id.
Proof. split; intros; intros st; split; reflexivity. Qed.

Lemma zwire_of_strings {float64 : Type} (xs : list (float64 * string)) :
  mapM model.zwire ((λ x, redis.mkZ x.1 (IString x.2)) <$> xs) = Some xs.
Proof.
  induction xs as [|[s m] xs IH]; [done |].
  rewrite fmap_cons. cbn [mapM]. unfold mbind, option_bind at 1.
  cbn [model.zwire model.wire redis.Member redis.Score fst snd mbind option_bind].
  by rewrite IH.
Qed.

Lemma server_follows_zsets : model.zsets Z.lt demo.server id.
Proof.
  split.
  - intros ctx key xs _ _ st.
    unfold demo.server, model.client; cbn [redis.ZAdd].
    rewrite zwire_of_strings. by split.
  - intros ctx key st. by split.
  - intros ctx key st. by split.
Qed.

Lemma server_follows_lists : model.lists demo.server id.
Proof. split; intros; intros st; split; reflexivity. Qed.

Lemma Z_numeric (z : Z) : model.numeric Z.lt z.
Proof. exists (z + 1). left. lia. Qed.

(** [Get] of a key that is absent: the server says [redis.Nil], the
    facade returns the empty string and no error. *)
Lemma absence_is_not_an_error_witness :
  run demo.facade (OpGet Background "missing") (demo.start demo.zero_config ∅)
  = Returns (RString "", None)
      (with_conn ∅ (demo.start demo.zero_config ∅)).
Proof.
  refine (proj1 (absence_is_not_an_error demo.facade demo.server
                   (OpGet Background "missing")
                   (demo.start demo.zero_config ∅)
                   (RString "") (Some redis.Nil) ∅ _ _) _);
    reflexivity.
Defined.

Lemma failed_ping_exits_witness :
  ∃ w', NewCache demo.down (Some 1%positive) demo.logger
          (demo.start demo.test_config ∅) = Exits 1 w'.
Proof.
  eexists.
  refine (proj1 (failed_ping_exits demo.down demo.logger 1%positive
                   demo.test_config (demo.start demo.test_config ∅) ""
                   (redis.Err
                      "dial tcp 127.0.0.1:9876: connect: connection refused")
                   ∅ _ _ _));
    reflexivity.
Defined.

Lemma defaults_resolves_zero_fields_witness :
  ∃ k', defaults demo.facade (demo.start demo.zero_config ∅)
        = Returns () (put 1%positive k' (demo.start demo.zero_config ∅))
      ∧ k' = mkConfig "127.0.0.1" 6379 "" 0 3 10.
Proof.
  destruct (defaults_resolves_zero_fields demo.facade 1%positive
              demo.zero_config (demo.start demo.zero_config ∅)
              ltac:(reflexivity) ltac:(reflexivity))
    as (k' & Hrun & _ & _ & _ & _ & _ & _ & Hzero).
  exists k'. split; [exact Hrun | exact (Hzero eq_refl)].
Defined.

Lemma set_then_get_witness :
  ∃ r w1 w2,
    Set_ demo.facade Background "k" (IString "v") 0
      (demo.start demo.test_config ∅) = Returns (r, None) w1 ∧
    Get demo.facade Background "k" w1 = Returns ("v", None) w2.
Proof.
  apply (set_then_get id demo.facade demo.server Background Background
           "k" "v" (demo.start demo.test_config ∅)).
  - exact server_follows_strings.
  - reflexivity.
Defined.

(** C4 as stated, for every value: [Set] takes an [interface{}] and [Get]
    returns a [string], so after [Set(k, 42, 0)] no result of [Get(k)] is
    the integer 42. *)
Lemma set_then_get_of_an_integer :
  ¬ ∃ r (s : string) w1 w2,
      Set_ demo.facade Background "k" (IInt 42) 0
        (demo.start demo.test_config ∅) = Returns (r, None) w1 ∧
      Get demo.facade Background "k" w1 = Returns (s, None) w2 ∧
      IString s = IInt 42.
Proof. intros (r & s & w1 & w2 & _ & _ & Heq). discriminate Heq. Qed.

Lemma zpopmin_ascending_witness :
  ∃ zs w1 w2 trace,
    ZAdd demo.facade Background "k"
      ((λ x, redis.mkZ x.1 (IString x.2)) <$> demo.scored)
      (demo.start demo.test_config ∅)
    = Returns (Z.of_nat (length zs), None) w1 ∧
    pop_and_range demo.facade Background "k" (length zs) w1
    = Returns trace w2 ∧
    length trace = length zs ∧
    (∀ j z, zs !! j = Some z →
       trace !! j
       = Some (([redis.mkZ z.1 (IString z.2)], None),
               ((drop (S j) zs).*2, None))) ∧
    StronglySorted (λ x y, Z.lt x.1 y.1) zs ∧
    NoDup zs.*2 ∧
    (∀ i j z, zs !! i = Some z → (i ≤ j)%nat →
       z.2 ∉ (drop (S j) zs).*2) ∧
    (∀ z, z ∈ zs → z ∈ demo.scored) ∧
    (∀ m, m ∈ zs.*2 ↔ m ∈ demo.scored.*2).
Proof.
  apply (zpopmin_ascending id Z.lt demo.facade demo.server Background "k"
           demo.scored (demo.start demo.test_config ∅)).
  - exact server_follows_zsets.
  - reflexivity.
  - reflexivity.
  - discriminate.
  - repeat constructor; apply Z_numeric.
  - simpl. unfold model.apart. repeat split; repeat constructor; lia.
Defined.

Lemma lmove_head_to_tail_witness :
  ∃ w1,
    LMove demo.facade Background "A" "B" "LEFT" "RIGHT"
      (demo.start demo.test_config demo.two_items)
    = Returns ("x", None) w1 ∧
    (∀ ctx', ∃ w2,
       LRange demo.facade ctx' "A" 0 (-1) w1 = Returns (["y"], None) w2) ∧
    (∀ ctx', ∃ w2,
       LRange demo.facade ctx' "B" 0 (-1) w1 = Returns (["x"], None) w2) ∧
    (∀ ctx', ∃ w2, LLen demo.facade ctx' "A" w1 = Returns (2 - 1, None) w2) ∧
    (∀ ctx', ∃ w2, LLen demo.facade ctx' "B" w1 = Returns (0 + 1, None) w2) ∧
    (∀ key, key ≠ "A" → key ≠ "B" →
       conn w1 !! key = demo.two_items !! key).
Proof.
  apply (lmove_head_to_tail id demo.facade demo.server Background
           "A" "B" "x" ["y"] []
           (demo.start demo.test_config demo.two_items)).
  - exact server_follows_lists.
  - reflexivity.
  - discriminate.
  - reflexivity.
  - reflexivity.
Defined.

(** C6 as stated, for every list [B]: with [B] the list [A] itself the
    move is a rotation, and the length of [A] is 2 afterwards, not 2 - 1. *)
Lemma lmove_onto_itself_keeps_length :
  ¬ ∃ w1 w2,
      LMove demo.facade Background "A" "A" "LEFT" "RIGHT"
        (demo.start demo.test_config demo.two_items)
      = Returns ("x", None) w1 ∧
      LLen demo.facade Background "A" w1 = Returns (2 - 1, None) w2.
Proof.
  intros (w1 & w2 & Hmove & Hlen).
  assert (LMove demo.facade Background "A" "A" "LEFT" "RIGHT"
            (demo.start demo.test_config demo.two_items)
          = Returns ("x", None)
              (demo.start demo.test_config {["A" := model.EList ["y"; "x"]]}))
    as Hrun by reflexivity.
  rewrite Hrun in Hmove. injection Hmove as <-.
  assert (LLen demo.facade Background "A"
            (demo.start demo.test_config {["A" := model.EList ["y"; "x"]]})
          = Returns (2, None)
              (demo.start demo.test_config {["A" := model.EList ["y"; "x"]]}))
    as Hrun2 by reflexivity.
  rewrite Hrun2 in Hlen. discriminate Hlen.
Qed.

(** [TestRedis]: construction against a server that answers. *)
Lemma NewCache_writes_through_witness :
  NewCache demo.reachable (Some 1%positive) demo.logger
    (demo.start demo.test_config ∅)
  = Returns (demo.facade, None)
      (put 1%positive (resolved demo.test_config)
         (demo.start demo.test_config ∅))
  ∧ ∃ l k,
      Some 1%positive = Some l ∧
      heap (demo.start demo.test_config ∅) !! l = Some k ∧
      config demo.facade = Some 1%positive ∧
      heap (put 1%positive (resolved demo.test_config)
              (demo.start demo.test_config ∅)) !! l
      = Some (resolved k) ∧
      ∀ l', l' ≠ l →
        heap (put 1%positive (resolved demo.test_config)
                (demo.start demo.test_config ∅)) !! l'
        = heap (demo.start demo.test_config ∅) !! l'.
Proof.
  split; [reflexivity |].
  apply (NewCache_writes_through demo.reachable (Some 1%positive)
           demo.logger (demo.start demo.test_config ∅) demo.facade None).
  reflexivity.
Defined.

Lemma NewCache_error_is_nil_witness :
  NewCache demo.reachable (Some 1%positive) demo.logger
    (demo.start demo.test_config ∅)
  = Returns (demo.facade, None)
      (put 1%positive (resolved demo.test_config)
         (demo.start demo.test_config ∅))
  ∧ (None : goerr) = None.
Proof.
  split; [reflexivity |].
  apply (NewCache_error_is_nil demo.reachable (Some 1%positive) demo.logger
           (demo.start demo.test_config ∅) demo.facade None
           (put 1%positive (resolved demo.test_config)
              (demo.start demo.test_config ∅))).
  reflexivity.
Defined.

(** ** Runs on the model of the store *)

Example get_of_absent_key :
  Get demo.facade Background "missing" (demo.start demo.test_config ∅)
  = Returns ("", None) (demo.start demo.test_config ∅).
Proof. reflexivity. Qed.

Example unreachable_error_is_returned :
  Get (mkCache (Some (demo.down (options demo.test_config))) demo.logger
         (Some 1%positive))
    Background "k" (demo.start demo.test_config ∅)
  = Returns
      ("", Some (redis.Err
                   "dial tcp 127.0.0.1:9876: connect: connection refused"))
      (demo.start demo.test_config ∅).
Proof. reflexivity. Qed.

Example pops_come_in_score_order :
  (ZAdd demo.facade Background "k" demo.members;;
   pop_and_range demo.facade Background "k" 3)
    (demo.start demo.test_config ∅)
  = Returns
      [(([redis.mkZ 1 (IString "a")], None), (["b"; "c"], None));
       (([redis.mkZ 2 (IString "b")], None), (["c"], None));
       (([redis.mkZ 3 (IString "c")], None), ([], None))]
      (demo.start demo.test_config ∅).
Proof. reflexivity. Qed.

Example rotation_keeps_length :
  (LMove demo.facade Background "A" "A" "LEFT" "RIGHT";;
   LRange demo.facade Background "A" 0 (-1))
    (demo.start demo.test_config demo.two_items)
  = Returns (["y"; "x"], None)
      (demo.start demo.test_config {["A" := model.EList ["y"; "x"]]}).
Proof. reflexivity. Qed.

Example integer_comes_back_as_text :
  (Set_ demo.facade Background "k" (IInt 42) 0;;
   Get demo.facade Background "k")
    (demo.start demo.test_config ∅)
  = Returns ("42", None)
      (demo.start demo.test_config {["k" := model.EString "42"]}).
Proof. reflexivity. Qed.

Example unmarshalled_value_is_not_stored :
  (Set_ demo.facade Background "k" (IDyn "struct {}" "{}") 0;;
   Get demo.facade Background "k")
    (demo.start demo.test_config ∅)
  = Returns ("", None) (demo.start demo.test_config ∅).
Proof. reflexivity. Qed.

Example position_words_in_any_case :
  LMove demo.facade Background "A" "B" "Left" "right"
    (demo.start demo.test_config demo.two_items)
  = Returns ("x", None)
      (demo.start demo.test_config
         {["A" := model.EList ["y"]; "B" := model.EList ["x"]]}).
Proof. reflexivity. Qed.

(** ** More of the package: what the methods, [Close], [defaults],
    [NewCache] and [TestRedis] do beyond the statements above *)

Section Package.
Context {float64 Conn : Type}.
Context (NewClient : redis.Options → redis.Client float64 Conn).

Implicit Types (c : cache float64 Conn) (cl : redis.Client float64 Conn).
Implicit Types (w : World Conn) (o : op float64).

(** *** The methods *)

Lemma run_without_client c o w :
  client c = None → run c o w = Panics nil_dereference.
Proof.
  intros Hcl. destruct c as [? lg cf]; simpl in Hcl; subst.
  by destruct o.
Qed.

(** X1. No method hands [redis.Nil] to its caller: whatever the client
    and the state, the error of a returning operation is not the
    sentinel. *)
Theorem never_returns_sentinel c o w r e w' :
  run c o w = Returns (r, e) w' → e ≠ Some redis.Nil.
Proof.
  destruct (client c) as [cl|] eqn:Hcl.
  - rewrite (run_store_call c cl o w Hcl).
    destruct (store_call cl o (conn w)) as [[resp err] s].
    intros [= _ <- _]. by case_decide.
  - by rewrite run_without_client.
Qed.

(** X2. A reply that came with [redis.Nil] and the same reply that came
    with no error look the same to the caller: both are returned with a
    nil error, so absence cannot be told from a stored zero value. *)
Theorem absence_looks_like_zero_value c1 c2 cl1 cl2 o w1 w2 r s1 s2 :
  client c1 = Some cl1 → client c2 = Some cl2 →
  store_call cl1 o (conn w1) = ((r, Some redis.Nil), s1) →
  store_call cl2 o (conn w2) = ((r, None), s2) →
  run c1 o w1 = Returns (r, None) (with_conn s1 w1) ∧
  run c2 o w2 = Returns (r, None) (with_conn s2 w2).
Proof.
  intros H1 H2 Hnil Hok.
  by rewrite (run_store_call c1 cl1 o w1 H1), (run_store_call c2 cl2 o w2 H2),
    Hnil, Hok.
Qed.

Lemma with_conn_conn w : with_conn (conn w) w = w.
Proof. by destruct w. Qed.

(** X3. The cache keeps no state of its own between calls: a sequence
    of operations through the cache returns what the same sequence of
    client calls returns, each error normalised, and leaves the connection
    in the state those client calls leave it. *)
Theorem operations_compose c cl (ops : list (op float64)) w :
  client c = Some cl →
  ∃ w',
    run_all c ops w
    = Returns
        ((λ r, (r.1, normalised r.2)) <$> (store_all cl ops (conn w)).1) w'
    ∧ conn w' = (store_all cl ops (conn w)).2.
Proof.
  intros Hcl. revert w. induction ops as [|o ops IH]; intros w.
  - by exists w.
  - cbn [run_all store_all]. unfold mbind, Proc_bind.
    rewrite (run_store_call c cl o w Hcl).
    destruct (store_call cl o (conn w)) as [[resp err] s].
    destruct (IH (with_conn s w)) as (w' & -> & Hconn).
    cbn [conn with_conn] in Hconn |- *.
    destruct (store_all cl ops s) as [rs s2]. by exists w'.
Qed.

(** X5. The cache does not guard against use after [Close]: [Close]
    returns the client's error as it is ([redis.Nil] included), and an
    operation issued afterwards is the client's call on the connection
    that [Close] left, with the usual normalisation. *)
Theorem use_after_Close_is_forwarded c cl o w e0 s0 r err s :
  client c = Some cl →
  redis.Close cl (conn w) = (e0, s0) →
  store_call cl o s0 = ((r, err), s) →
  Close c w = Returns e0 (with_conn s0 w) ∧
  (Close c;; run c o) w = Returns (r, normalised err) (with_conn s w).
Proof.
  intros Hcl Hclose Hcall.
  assert (Close c w = Returns e0 (with_conn s0 w)) as HC.
  { unfold Close. by rewrite Hcl, Hclose. }
  split; [exact HC |].
  unfold mbind, Proc_bind. rewrite HC.
  rewrite (run_store_call c cl o (with_conn s0 w) Hcl).
  cbn [conn with_conn]. by rewrite Hcall.
Qed.

(** *** [defaults] *)

Lemma resolved_twice k : resolved (resolved k) = resolved k.
Proof.
  destruct k as [h p pw d m ps]. unfold resolved; simpl.
  repeat case_decide; simpl in *; first [reflexivity | congruence].
Qed.

Lemma defaults_without_config c w :
  (config c = None ∨ ∃ l, config c = Some l ∧ heap w !! l = None) →
  defaults c w = Panics nil_dereference.
Proof.
  intros [Hc|(l & Hc & Hl)]; unfold defaults, mbind, Proc_bind, load;
    rewrite Hc; [done |]. by rewrite Hl.
Qed.

(** X6. After [defaults] no field that has a non-zero default is left
    zero: the host is not empty, and the port, the retry count and the pool
    size are not 0. *)
Theorem defaults_leaves_no_zero_field c l k w :
  config c = Some l → heap w !! l = Some k →
  ∃ w' k',
    defaults c w = Returns () w' ∧ heap w' !! l = Some k' ∧
    Host k' ≠ "" ∧ Port k' ≠ 0 ∧ MaxRetries k' ≠ 0 ∧ PoolSize k' ≠ 0.
Proof.
  intros Hc Hk. exists (put l (resolved k) w), (resolved k).
  split; [by apply defaults_at |]. split; [apply heap_put |].
  unfold resolved; simpl. repeat split; by case_decide.
Qed.

(** X7. [defaults] is idempotent: running it twice is running it once,
    on every cache and process (on a nil configuration both panic). *)
Theorem defaults_idempotent c w :
  (defaults c;; defaults c) w = defaults c w.
Proof.
  unfold mbind, Proc_bind.
  destruct (config c) as [l|] eqn:Hc.
  - destruct (heap w !! l) as [k|] eqn:Hk.
    + rewrite (defaults_at c l k w Hc Hk).
      rewrite (defaults_at c l (resolved k) _ Hc (heap_put l _ w)).
      by rewrite put_put, resolved_twice.
    + rewrite (defaults_without_config c w); [done |]. right. eauto.
  - rewrite (defaults_without_config c w); [done |]. by left.
Qed.

(** *** [NewCache] *)

(** X8. When the ping is answered without error, [NewCache] returns a
    cache whose client is the one [redis.NewClient] built from the resolved
    configuration (not from the fields as the caller gave them), with the
    caller's logger and pointer and a nil error; [GetClient] returns that
    client; the [Config] behind the pointer holds the resolved values and
    the connection is as the ping left it. *)
Theorem successful_construction l k log w resp s :
  heap w !! l = Some k →
  redis.Ping (NewClient (options (resolved k))) Background (conn w)
    = ((resp, None), s) →
  ∃ w',
    NewCache NewClient (Some l) log w
    = Returns
        (mkCache (Some (NewClient (options (resolved k)))) log (Some l), None)
        w'
    ∧ heap w' = <[l := resolved k]> (heap w)
    ∧ conn w' = s
    ∧ GetClient
        (mkCache (Some (NewClient (options (resolved k)))) log (Some l))
      = Some (NewClient (options (resolved k))).
Proof.
  intros Hk Hping. rewrite (NewCache_at NewClient l k log w Hk). simpl.
  rewrite Hping. eauto.
Qed.

(** X9. A nil configuration is not replaced by the defaults: [NewCache]
    with a nil pointer panics on the first field read of [defaults], for
    every logger and process, before any client exists. *)
Theorem nil_config_panics log w
    (client : option (redis.Client float64 Conn)) :
  NewCache NewClient None log w = Panics nil_dereference ∧
  defaults (mkCache client log None) w = Panics nil_dereference.
Proof. split; reflexivity. Qed.

(** X10. Nothing but the logger stops a failed construction: with a
    logger whose [Fatal] returns, [NewCache] after a failed ping still
    returns a cache holding the client, and a nil error; the failure is
    only in the log. *)
Theorem returning_Fatal_hides_failed_ping l k log w resp e s :
  on_fatal log = ReturnToCaller →
  heap w !! l = Some k →
  redis.Ping (NewClient (options (resolved k))) Background (conn w)
    = ((resp, Some e), s) →
  NewCache NewClient (Some l) log w
  = Returns
      (mkCache (Some (NewClient (options (resolved k)))) log (Some l), None)
      (with_logged ("fatal", "redis", ping_failed e)
         (with_conn s (put l (resolved k) w))).
Proof.
  intros Hlog Hk Hping. rewrite (NewCache_at NewClient l k log w Hk). simpl.
  by rewrite Hping, Hlog.
Qed.

(** X13. Two caches can be built on one [Config]: when both pings are
    answered, constructing a second cache through the same pointer leaves
    the configuration as the first construction resolved it, and the second
    client is built from the same options as the first. *)
Theorem second_construction_keeps_config l k log log' w resp1 s1 resp2 s2 :
  heap w !! l = Some k →
  redis.Ping (NewClient (options (resolved k))) Background (conn w)
    = ((resp1, None), s1) →
  redis.Ping (NewClient (options (resolved k))) Background s1
    = ((resp2, None), s2) →
  (NewCache NewClient (Some l) log;; NewCache NewClient (Some l) log') w
  = Returns
      (mkCache (Some (NewClient (options (resolved k)))) log' (Some l), None)
      (with_conn s2 (put l (resolved k) w)).
Proof.
  intros Hk Hp1 Hp2. unfold mbind, Proc_bind.
  rewrite (NewCache_at NewClient l k log w Hk). cbv zeta. rewrite Hp1.
  rewrite (NewCache_at NewClient l (resolved k) log'
             (with_conn s1 (put l (resolved k) w)) (heap_put l _ w)).
  cbv zeta. rewrite resolved_twice. cbn [conn with_conn]. rewrite Hp2.
  unfold put, with_conn, with_heap; simpl.
  by rewrite insert_insert_eq.
Qed.

(** *** [TestRedis] *)

Lemma fresh_is_free w : heap w !! fresh (dom (heap w)) = None.
Proof. apply not_elem_of_dom, is_fresh. Qed.

(** [TestRedis] up to the call of [Close]. *)
Lemma TestRedis_unfold log w :
  TestRedis NewClient log w =
    let k := mkConfig "127.0.0.1" 9876 "596a96cc7bf9108cd896f33c44aedc8a"
               0 0 0 in
    let l := fresh (dom (heap w)) in
    match NewCache NewClient (Some l) log (put l k w) with
    | Returns (c, err) w1 =>
        match Close c w1 with
        | Returns err' w2 => Returns [assert_nil err; assert_nil err'] w2
        | Panics msg => Panics msg
        | Exits code w2 => Exits code w2
        end
    | Panics msg => Panics msg
    | Exits code w1 => Exits code w1
    end.
Proof.
  unfold TestRedis, mbind, Proc_bind, alloc. simpl.
  destruct (NewCache _ _ _ _) as [[c err] w1| |]; [|done..].
  by destruct (Close c w1).
Qed.

(** X11. [TestRedis] passes against every server that answers the ping
    and closes without error: both assertions hold, the test's [Config]
    sits at a fresh address and holds host 127.0.0.1, port 9876, the
    password, database 0, 3 retries and a pool of 10, and every [Config]
    that existed before is untouched. *)
Theorem TestRedis_passes log w resp s1 s2 :
  let k := mkConfig "127.0.0.1" 9876 "596a96cc7bf9108cd896f33c44aedc8a"
             0 0 0 in
  let l := fresh (dom (heap w)) in
  redis.Ping (NewClient (options (resolved k))) Background (conn w)
    = ((resp, None), s1) →
  redis.Close (NewClient (options (resolved k))) s1 = (None, s2) →
  ∃ w',
    TestRedis NewClient log w = Returns [true; true] w' ∧
    heap w !! l = None ∧
    heap w' !! l
    = Some (mkConfig "127.0.0.1" 9876 "596a96cc7bf9108cd896f33c44aedc8a"
              0 3 10) ∧
    (∀ l', l' ≠ l → heap w' !! l' = heap w !! l') ∧
    conn w' = s2.
Proof.
  intros k l Hping Hclose.
  exists (with_conn s2 (put l (resolved k) w)).
  split; [|split; [apply fresh_is_free | split; [apply heap_put | split]]].
  - rewrite TestRedis_unfold. cbv zeta. fold k. fold l.
    rewrite (NewCache_at NewClient l k log (put l k w) (heap_put l k w)).
    cbn [conn put with_heap]. cbv zeta. rewrite Hping.
    rewrite put_put. unfold Close. cbn [client conn with_conn].
    by rewrite Hclose.
  - intros l' Hne. cbn. by rewrite lookup_insert_ne.
  - reflexivity.
Qed.

(** X12. Whenever [TestRedis] runs to its end, its first assertion (the
    error of [NewCache] is nil) held, and its second holds exactly when the
    client's [Close], on the connection the startup ping left, returned a
    nil error. *)
Theorem TestRedis_assertions log w r w' :
  TestRedis NewClient log w = Returns r w' →
  ∃ resp err s1 e2 s2,
    redis.Ping
      (NewClient
         (options
            (resolved
               (mkConfig "127.0.0.1" 9876 "596a96cc7bf9108cd896f33c44aedc8a"
                  0 0 0))))
      Background (conn w) = ((resp, err), s1) ∧
    redis.Close
      (NewClient
         (options
            (resolved
               (mkConfig "127.0.0.1" 9876 "596a96cc7bf9108cd896f33c44aedc8a"
                  0 0 0))))
      s1 = (e2, s2) ∧
    r = [true; assert_nil e2] ∧
    conn w' = s2.
Proof.
  rewrite TestRedis_unfold. cbv zeta.
  set (l := fresh (dom (heap w))).
  set (k := mkConfig _ _ _ _ _ _).
  rewrite (NewCache_at NewClient l k log (put l k w) (heap_put l k w)).
  cbv zeta. cbn [conn put with_heap].
  destruct (redis.Ping _ _ _) as [[resp err] s1].
  destruct (redis.Close (NewClient (options (resolved k))) s1)
    as [e2 s2] eqn:Hclose.
  intros Hrun. exists resp, err, s1, e2, s2.
  split; [done |]. split; [done |].
  destruct err as [e|].
  - destruct (on_fatal log); try discriminate.
    unfold Close in Hrun. cbn [client conn with_conn with_logged] in Hrun.
    rewrite Hclose in Hrun. by injection Hrun as <- <-.
  - unfold Close in Hrun. cbn [client conn with_conn] in Hrun.
    rewrite Hclose in Hrun. by injection Hrun as <- <-.
Qed.

End Package.

(** *** At concrete processes *)

Lemma never_returns_sentinel_witness :
  run demo.facade (OpGet Background "missing") (demo.start demo.test_config ∅)
  = Returns (RString "", None) (demo.start demo.test_config ∅)
  ∧ (None : goerr) ≠ Some redis.Nil.
Proof.
  split; [reflexivity |].
  apply (never_returns_sentinel demo.facade (OpGet Background "missing")
           (demo.start demo.test_config ∅) (RString "") None
           (demo.start demo.test_config ∅)).
  reflexivity.
Defined.

(** A key that is absent and a key that holds the empty string. *)
Lemma absence_looks_like_zero_value_witness :
  run demo.facade (OpGet Background "k") (demo.start demo.test_config ∅)
  = Returns (RString "", None) (demo.start demo.test_config ∅)
  ∧ run demo.facade (OpGet Background "k")
      (demo.start demo.test_config {["k" := model.EString ""]})
    = Returns (RString "", None)
        (demo.start demo.test_config {["k" := model.EString ""]}).
Proof.
  apply (absence_looks_like_zero_value demo.facade demo.facade
           demo.server demo.server (OpGet Background "k")
           (demo.start demo.test_config ∅)
           (demo.start demo.test_config {["k" := model.EString ""]})
           (RString "") ∅ {["k" := model.EString ""]});
    reflexivity.
Defined.

Lemma operations_compose_witness :
  ∃ w',
    run_all demo.facade
      [OpSet Background "k" (IString "v") 0; OpGet Background "k";
       OpGet Background "missing"]
      (demo.start demo.test_config ∅)
    = Returns
        [(RString "OK", None); (RString "v", None); (RString "", None)] w'
    ∧ conn w' = {["k" := model.EString "v"]}.
Proof.
  destruct (operations_compose demo.facade demo.server
              [OpSet Background "k" (IString "v") 0; OpGet Background "k";
               OpGet Background "missing"]
              (demo.start demo.test_config ∅) ltac:(reflexivity))
    as (w' & Hrun & Hconn).
  exists w'. split; [exact Hrun | exact Hconn].
Defined.

Lemma use_after_Close_is_forwarded_witness :
  Close demo.facade (demo.start demo.test_config demo.two_items)
  = Returns None (demo.start demo.test_config demo.two_items)
  ∧ (Close demo.facade;; run demo.facade (OpLLen Background "A"))
      (demo.start demo.test_config demo.two_items)
    = Returns (RInt 2, normalised None)
        (demo.start demo.test_config demo.two_items).
Proof.
  apply (use_after_Close_is_forwarded demo.facade demo.server
           (OpLLen Background "A")
           (demo.start demo.test_config demo.two_items)
           None demo.two_items (RInt 2) None demo.two_items);
    reflexivity.
Defined.

Lemma defaults_leaves_no_zero_field_witness :
  ∃ w' k',
    defaults demo.facade (demo.start demo.zero_config ∅) = Returns () w' ∧
    heap w' !! 1%positive = Some k' ∧
    Host k' ≠ "" ∧ Port k' ≠ 0 ∧ MaxRetries k' ≠ 0 ∧ PoolSize k' ≠ 0.
Proof.
  apply (defaults_leaves_no_zero_field demo.facade 1%positive
           demo.zero_config (demo.start demo.zero_config ∅));
    reflexivity.
Defined.

Lemma successful_construction_witness :
  ∃ w',
    NewCache demo.reachable (Some 1%positive) demo.logger
      (demo.start demo.zero_config ∅)
    = Returns (demo.facade, None) w'
    ∧ heap w'
      = <[1%positive := resolved demo.zero_config]>
          (heap (demo.start demo.zero_config ∅))
    ∧ conn w' = ∅
    ∧ GetClient demo.facade = Some demo.server.
Proof.
  apply (successful_construction demo.reachable 1%positive demo.zero_config
           demo.logger (demo.start demo.zero_config ∅) "PONG" ∅);
    reflexivity.
Defined.

Lemma returning_Fatal_hides_failed_ping_witness :
  NewCache demo.down (Some 1%positive) (mkLogger ReturnToCaller)
    (demo.start demo.test_config ∅)
  = Returns
      (mkCache (Some (model.unreachable 0)) (mkLogger ReturnToCaller)
         (Some 1%positive), None)
      (with_logged
         ("fatal", "redis",
          "Could not ping redis dial tcp 127.0.0.1:9876: connect: connection refused")
         (with_conn ∅
            (put 1%positive (resolved demo.test_config)
               (demo.start demo.test_config ∅)))).
Proof.
  apply (returning_Fatal_hides_failed_ping demo.down 1%positive
           demo.test_config (mkLogger ReturnToCaller)
           (demo.start demo.test_config ∅) ""
           (redis.Err "dial tcp 127.0.0.1:9876: connect: connection refused")
           ∅);
    reflexivity.
Defined.

Lemma TestRedis_passes_witness :
  ∃ w',
    TestRedis demo.reachable demo.logger (demo.start demo.zero_config ∅)
    = Returns [true; true] w' ∧
    heap (demo.start demo.zero_config ∅)
      !! fresh (dom (heap (demo.start demo.zero_config ∅))) = None ∧
    heap w' !! fresh (dom (heap (demo.start demo.zero_config ∅)))
    = Some (mkConfig "127.0.0.1" 9876 "596a96cc7bf9108cd896f33c44aedc8a"
              0 3 10) ∧
    (∀ l', l' ≠ fresh (dom (heap (demo.start demo.zero_config ∅))) →
       heap w' !! l' = heap (demo.start demo.zero_config ∅) !! l') ∧
    conn w' = ∅.
Proof.
  apply (TestRedis_passes demo.reachable demo.logger
           (demo.start demo.zero_config ∅) "PONG" ∅ ∅);
    reflexivity.
Defined.

Lemma TestRedis_assertions_witness :
  TestRedis demo.reachable demo.logger (demo.start demo.zero_config ∅)
  = Returns [true; true]
      (put 2%positive (resolved demo.test_config)
         (demo.start demo.zero_config ∅))
  ∧ ∃ resp err s1 e2 s2,
      redis.Ping (demo.reachable (options (resolved demo.test_config)))
        Background ∅ = ((resp, err), s1) ∧
      redis.Close (demo.reachable (options (resolved demo.test_config))) s1
      = (e2, s2) ∧
      [true; true] = [true; assert_nil e2] ∧
      (∅ : gmap string (model.entry (float64 := Z))) = s2.
Proof.
  split; [vm_compute; reflexivity |].
  apply (TestRedis_assertions demo.reachable demo.logger
           (demo.start demo.zero_config ∅) [true; true]
           (put 2%positive (resolved demo.test_config)
              (demo.start demo.zero_config ∅))).
  vm_compute. reflexivity.
Defined.

Lemma second_construction_keeps_config_witness :
  (NewCache demo.reachable (Some 1%positive) demo.logger;;
   NewCache demo.reachable (Some 1%positive) (mkLogger ReturnToCaller))
    (demo.start demo.zero_config ∅)
  = Returns
      (mkCache (Some demo.server) (mkLogger ReturnToCaller) (Some 1%positive),
       None)
      (with_conn ∅
         (put 1%positive (resolved demo.zero_config)
            (demo.start demo.zero_config ∅))).
Proof.
  apply (second_construction_keeps_config demo.reachable 1%positive
           demo.zero_config demo.logger (mkLogger ReturnToCaller)
           (demo.start demo.zero_config ∅) "PONG" ∅ "PONG" ∅);
    reflexivity.
Defined.
